(** * Tunnel lifecycle of chisel (share/tunnel/tunnel.go)

    A shallow embedding of the [Tunnel] type and its methods ([New],
    [BindSSH], [getSSH], [BindRemotes], [keepAliveLoop], [KeepAliveChan],
    [Close]) together with the properties of the tunnel core.

    Conventions.
    - A Go [error] value is an [option error]: [None] is [nil].
    - [time.Duration] is a signed count of nanoseconds, a [Z].
    - Every goroutine is a sequence of atomic [action]s on the shared
      [World]; a region guarded by [activeConnMut] is one action.
    - Logging ([Debugf]) and the SOCKS server have no part in the control
      flow and are left out.
    - What the surroundings decide (when a connection shuts down, what a
      peer answers to a ping, in which order proxies return) is an explicit
      argument of the function that observes it. *)

From Stdlib Require Import ZArith List String Bool Lia.
Import ListNotations.
Open Scope string_scope.
Open Scope list_scope.
Open Scope Z_scope.

(** ** Basic data *)

Definition error := string.
Definition Duration := Z.
Definition Second : Duration := 1000000000.

(** Identity of an [ssh.Conn] object and of a [context.Context]. *)
Definition Conn := nat.
Definition Ctx := nat.

(** Go's [int] on a 64-bit platform: [x++] wraps around. *)
Definition maxInt : Z := 2 ^ 63 - 1.
Definition minInt : Z := - 2 ^ 63.
Definition wrapInt (x : Z) : Z := (x + 2 ^ 63) mod 2 ^ 64 - 2 ^ 63.

(** ** The readiness gate *)

(** Modelled from the spec: the [waitGroup] type of the field
    [activatingConn] is declared in another file of the package.  The spec
    describes the readiness gate as a countdown that is re-armed across
    binding cycles: [Add(1)] marks it pending, [Done()] marks it ready,
    [Wait()] blocks while it is pending.  [Done] never counts below zero
    ([BindSSH] calls it also after [DoneAll]), and [DoneAll], as named and
    as used by [BindSSH] on cancellation, counts down all that is
    outstanding. *)
Record waitGroup := mkWaitGroup { wg_n : Z }.

Definition wg_Add (k : Z) (g : waitGroup) : waitGroup :=
  mkWaitGroup (wg_n g + k).

Definition wg_Done (g : waitGroup) : waitGroup :=
  if 0 <? wg_n g then mkWaitGroup (wg_n g - 1) else g.

Definition wg_DoneAll (g : waitGroup) : waitGroup :=
  if 0 <? wg_n g then mkWaitGroup 0 else g.

(** [Wait] blocks exactly while this holds: the gate is pending. *)
Definition wg_pending (g : waitGroup) : bool := 0 <? wg_n g.

(** ** Tunnel state *)

Record Config := mkConfig {
  Inbound : bool;
  Outbound : bool;
  Socks : bool;
  KeepAlive : Duration
}.

Record Tunnel := mkTunnel {
  config : Config;
  activatingConn : waitGroup;
  activeConn : option Conn;
  proxyCount : Z
}.

(** [New]: the gate starts armed, no connection, no proxies. *)
Definition New (c : Config) : Tunnel :=
  {| config := c;
     activatingConn := wg_Add 1 (mkWaitGroup 0);
     activeConn := None;
     proxyCount := 0 |}.

(** The tunnel together with what it can observe of its surroundings:
    which transport connections have shut down and which contexts are
    cancelled. *)
Record World := mkWorld {
  tun : Tunnel;
  closed : list Conn;
  cancelled : list Ctx
}.

Definition isClosed (c : Conn) (w : World) : bool :=
  existsb (Nat.eqb c) (closed w).

(** Modelled from the spec: [isDone] is declared in another file of the
    package; it tells whether [ctx] is already cancelled, without
    blocking. *)
Definition isDone (ctx : Ctx) (w : World) : bool :=
  existsb (Nat.eqb ctx) (cancelled w).

(** ** Atomic actions *)

Inductive goroutine :=
| GoCtxWatch (ctx : Ctx) (c : Conn)
| GoKeepAlive (c : Conn)
| GoHandleSSHRequests
| GoHandleSSHChannels
| GoProxyRun (k : nat) (ctx : Ctx)
| GoPing (c : Conn).

Inductive action :=
| Go (g : goroutine)
| SetActive (c : option Conn)
| GateAdd (k : Z)
| GateDone
| GateDoneAll
| ConnWait (c : Conn)
| ConnClose (c : Conn)
| Cancel (ctx : Ctx)
| NewProxyCall (index : Z)
| ProxyCountInc
| WithContext (parent child : Ctx)
| ProxyReturned (k : nat) (e : option error)
| Sleep (d : Duration)
| SendRequest (c : Conn) (name : string) (wantReply : bool)
| TimerFired (after : Duration)
| ChanRecv (after : Duration) (e : option error).

Definition setTun (f : Tunnel -> Tunnel) (w : World) : World :=
  {| tun := f (tun w); closed := closed w; cancelled := cancelled w |}.

Definition setGate (f : waitGroup -> waitGroup) : World -> World :=
  setTun (fun t => {| config := config t;
                      activatingConn := f (activatingConn t);
                      activeConn := activeConn t;
                      proxyCount := proxyCount t |}).

Definition markClosed (c : Conn) (w : World) : World :=
  if isClosed c w then w
  else {| tun := tun w; closed := c :: closed w; cancelled := cancelled w |}.

Definition step (a : action) (w : World) : World :=
  match a with
  | SetActive oc =>
      setTun (fun t => {| config := config t;
                          activatingConn := activatingConn t;
                          activeConn := oc;
                          proxyCount := proxyCount t |}) w
  | GateAdd k => setGate (wg_Add k) w
  | GateDone => setGate wg_Done w
  | GateDoneAll => setGate wg_DoneAll w
  | ConnWait c => markClosed c w
  | ConnClose c => markClosed c w
  | Cancel ctx =>
      if isDone ctx w then w
      else {| tun := tun w; closed := closed w; cancelled := ctx :: cancelled w |}
  | ProxyCountInc =>
      setTun (fun t => {| config := config t;
                          activatingConn := activatingConn t;
                          activeConn := activeConn t;
                          proxyCount := wrapInt (proxyCount t + 1) |}) w
  | Go _ | NewProxyCall _ | WithContext _ _ | ProxyReturned _ _
  | Sleep _ | SendRequest _ _ _ | TimerFired _ | ChanRecv _ _ => w
  end.

Definition replay (tr : list action) (w : World) : World :=
  fold_left (fun w a => step a w) tr w.

(** ** Computations: shared state, a trace of actions, three ways to end *)

Inductive outcome (A : Type) :=
| Returned (a : A)
| Panicked (msg : string)
| Blocked.
Arguments Returned {A} a.
Arguments Panicked {A} msg.
Arguments Blocked {A}.

Record result (A : Type) := mkResult {
  out : outcome A;
  world : World;
  trace : list action
}.
Arguments mkResult {A}.
Arguments out {A}.
Arguments world {A}.
Arguments trace {A}.

Definition M (A : Type) := World -> result A.

Definition ret {A} (a : A) : M A := fun w => mkResult (Returned a) w [].

Definition bind {A B} (m : M A) (f : A -> M B) : M B :=
  fun w =>
    match m w with
    | mkResult (Returned a) w1 t1 =>
        match f a w1 with
        | mkResult o w2 t2 => mkResult o w2 (t1 ++ t2)
        end
    | mkResult (Panicked msg) w1 t1 => mkResult (Panicked msg) w1 t1
    | mkResult Blocked w1 t1 => mkResult Blocked w1 t1
    end.

Notation "x <- m ;; k" := (bind m (fun x => k))
  (at level 61, m at next level, right associativity).
Notation "m ;; k" := (bind m (fun _ => k))
  (at level 61, right associativity).

Definition act (a : action) : M unit :=
  fun w => mkResult (Returned tt) (step a w) [a].

Definition get : M World := fun w => mkResult (Returned w) w [].

Definition panic {A} (msg : string) : M A :=
  fun w => mkResult (Panicked msg) w [].

Definition block {A} : M A := fun w => mkResult Blocked w [].

Definition when (b : bool) (m : M unit) : M unit :=
  if b then m else ret tt.

(** [c.Close()]: the first close succeeds, a later one reports an error
    and changes nothing. *)
Definition errClosed : error := "use of closed network connection".

Definition connClose (c : Conn) : M (option error) :=
  w <- get ;;
  act (ConnClose c) ;;
  ret (if isClosed c w then Some errClosed else None).

(** [c.Wait()]: blocks until the connection has shut down and yields the
    reason; [shutdown = None] is a connection that never shuts down. *)
Definition connWait (c : Conn) (shutdown : option (option error))
  : M (option error) :=
  match shutdown with
  | None => block
  | Some e => act (ConnWait c) ;; ret e
  end.

(** ** BindSSH *)

(** The goroutine linking [ctx] to the connection, from the moment
    [ctx.Done()] fires. *)
Definition ctxWatch (c : Conn) : M unit :=
  connClose c ;;
  act GateDoneAll.

Definition BindSSH (ctx : Ctx) (c : Conn) (shutdown : option (option error))
  : M (option error) :=
  act (Go (GoCtxWatch ctx c)) ;;
  w <- get ;;
  match activeConn (tun w) with
  | Some _ => panic "double bind ssh"
  | None =>
      act (SetActive (Some c)) ;;
      act GateDone ;;
      when (0 <? KeepAlive (config (tun w))) (act (Go (GoKeepAlive c))) ;;
      act (Go GoHandleSSHRequests) ;;
      act (Go GoHandleSSHChannels) ;;
      err <- connWait c shutdown ;;
      act (GateAdd 1) ;;
      act (SetActive None) ;;
      ret err
  end.

(** ** getSSH *)

(** Modelled from the spec: [settings.EnvDuration] belongs to the
    package [settings].  The readiness timeout is configurable: the duration
    the environment gives for the name when it gives one, the default
    otherwise. *)
Definition Env := string -> option Duration.

Definition EnvDuration (env : Env) (name : string) (def : Duration)
  : Duration :=
  match env name with
  | Some d => d
  | None => def
  end.

Definition sshWait (env : Env) : Duration :=
  EnvDuration env "SSH_WAIT" (35 * Second).

(** Which [return] of [getSSH] was taken. *)
Inductive how :=
| AlreadyCancelled
| AlreadyConnected
| ByCancel
| ByTimeout
| ByGate.

(** What a call of [getSSH] yields: the connection, the [return] taken,
    the time spent blocked, and the world in which it returns. *)
Record got := mkGot {
  got_conn : option Conn;
  got_how : how;
  got_at : Duration;
  got_world : World
}.

(** While [getSSH] is blocked the other goroutines act; [timeline] lists
    their actions in the order they happen, each with the time elapsed
    since [getSSH] was entered. *)
Definition timeline := list (Duration * action).

Definition at_time (d : Duration) (tr : list action) : timeline :=
  map (pair d) tr.

Definition gateOpen (w : World) : bool :=
  negb (wg_pending (activatingConn (tun w))).

(** The world in which a caller woken through the gate reads the slot:
    between the wake and the read [lag] further actions of the other
    goroutines take place. *)
Definition readAfter (lag : nat) (w : World) (future : timeline) : World :=
  replay (map snd (firstn lag future)) w.

(** The [select] of [getSSH].  A case is ready when its channel is:
    [ctx.Done()] once [ctx] is cancelled, the timer once [D] has elapsed,
    the channel of [activatingConnWait] once the gate's [Wait] returns.
    When the timer and another case are ready together Go picks either;
    [timerFirst] is that pick.  In the gate case the slot is read after
    the [select] has woken, [lag] actions later; [got_at] is the time of
    the wake and [got_world] the world of the read. *)
Fixpoint awaitSelect (D : Duration) (timerFirst : bool) (lag : nat)
  (ctx : Ctx) (now : Duration) (w : World) (future : timeline) : got :=
  if (D <=? now) && (timerFirst || negb (isDone ctx w || gateOpen w))
  then mkGot None ByTimeout now w
  else if isDone ctx w then mkGot None ByCancel now w
  else if gateOpen w
  then mkGot (activeConn (tun (readAfter lag w future))) ByGate now
         (readAfter lag w future)
  else
    match future with
    | [] => mkGot None ByTimeout D w
    | (d, a) :: rest =>
        if D <? d then mkGot None ByTimeout D w
        else awaitSelect D timerFirst lag ctx d (step a w) rest
    end.

Definition getSSH (env : Env) (timerFirst : bool) (lag : nat) (ctx : Ctx)
  (w : World) (future : timeline) : got :=
  if isDone ctx w then mkGot None AlreadyCancelled 0 w
  else
    match activeConn (tun w) with
    | Some c => mkGot (Some c) AlreadyConnected 0 w
    | None => awaitSelect (sshWait env) timerFirst lag ctx 0 w future
    end.

Definition getSSH_M (env : Env) (timerFirst : bool) (lag : nat) (ctx : Ctx)
  (future : timeline) : M (option Conn) :=
  fun w =>
    let g := getSSH env timerFirst lag ctx w future in
    mkResult (Returned (got_conn g)) (got_world g) [].

(** ** Close *)

Definition Close (env : Env) (timerFirst : bool) (lag : nat) (ctx : Ctx)
  (future : timeline) : M (option error) :=
  sshConn <- getSSH_M env timerFirst lag ctx future ;;
  match sshConn with
  | None => ret None
  | Some c => connClose c
  end.

(** ** Keepalive *)

(** What one [SendRequest("ping", true, nil)] meets: after how long the
    call returns ([None]: never), with which error and which payload, and
    Go's pick should the reply and the timer be ready at the same
    instant. *)
Record probe := mkProbe {
  reply_after : option Duration;
  reply_err : option error;
  reply_payload : string;
  timer_first : bool
}.

Definition strangePing : error := "strange ping response".

(** [KeepAliveChan]: the values its goroutine sends on [ch], in order,
    before the deferred [close(ch)]. *)
Definition KeepAliveChan (p : probe) : list error :=
  match reply_err p with
  | Some e => [e]
  | None => []
  end ++
  if (0 <? String.length (reply_payload p))%nat
     && negb (String.eqb (reply_payload p) "pong")
  then [strangePing]
  else [].

(** [<-ch]: the first value sent, or the zero value [nil] when the
    channel is closed with nothing sent. *)
Definition chanRecv (sends : list error) : option error := hd_error sends.

Inductive selected :=
| TimerCase
| ChanCase (after : Duration) (e : option error).

(** The [select] of [keepAliveLoop], entered as the ping is sent. *)
Definition keepAliveSelect (K : Duration) (p : probe) : selected :=
  match reply_after p with
  | None => TimerCase
  | Some d =>
      if d <? K then ChanCase d (chanRecv (KeepAliveChan p))
      else if (d =? K) && negb (timer_first p)
           then ChanCase d (chanRecv (KeepAliveChan p))
           else TimerCase
  end.

(** The [for] loop; [env] is what the successive pings meet.  When the
    observed pings are used up the loop is still running. *)
Fixpoint pingForever (K : Duration) (c : Conn) (env : list probe) : M unit :=
  match env with
  | [] => block
  | p :: rest =>
      act (Sleep K) ;;
      act (Go (GoPing c)) ;;
      act (SendRequest c "ping" true) ;;
      match keepAliveSelect K p with
      | TimerCase => act (TimerFired K)
      | ChanCase d None => act (ChanRecv d None) ;; pingForever K c rest
      | ChanCase d (Some e) => act (ChanRecv d (Some e))
      end
  end.

(** [keepAliveLoop]: the deferred function closes the connection on
    every return. *)
Definition keepAliveLoop (c : Conn) (env : list probe) : M unit :=
  w <- get ;;
  pingForever (KeepAlive (config (tun w))) c env ;;
  connClose c ;;
  ret tt.

(** ** errgroup *)

(** [errgroup.Group] of golang.org/x/sync: [g_err] is written once, by
    the first unit returning an error, which also cancels the group's
    context; [g_running] are the units started and not yet returned. *)
Record Group := mkGroup {
  g_err : option error;
  g_running : list nat
}.

Definition groupGo (gctx : Ctx) (k : nat) (g : Group) : M Group :=
  act (Go (GoProxyRun k gctx)) ;;
  ret {| g_err := g_err g; g_running := g_running g ++ [k] |}.

Definition isRunning (k : nat) (g : Group) : bool :=
  existsb (Nat.eqb k) (g_running g).

(** Unit [k] returns [r] from the function given to [Go]. *)
Definition unitReturns (gctx : Ctx) (k : nat) (r : option error) (g : Group)
  : M Group :=
  if isRunning k g then
    act (ProxyReturned k r) ;;
    g' <- match r, g_err g with
          | Some e, None =>
              act (Cancel gctx) ;;
              ret {| g_err := Some e; g_running := g_running g |}
          | _, _ => ret g
          end ;;
    ret {| g_err := g_err g';
           g_running := filter (fun j => negb (Nat.eqb k j)) (g_running g') |}
  else ret g.

(** [Wait]: blocks until every unit has returned, cancels the context and
    yields [g_err]; [sched] is the order in which the units return. *)
Fixpoint groupWait (gctx : Ctx) (sched : list (nat * option error))
  (g : Group) : M (option error) :=
  match g_running g with
  | [] => act (Cancel gctx) ;; ret (g_err g)
  | _ :: _ =>
      match sched with
      | [] => block
      | (k, r) :: rest =>
          g' <- unitReturns gctx k r g ;;
          groupWait gctx rest g'
      end
  end.

(** ** BindRemotes *)

Section Remotes.

(** [settings.Remote], [Proxy] and [NewProxy] are declared in other
    files; [NewProxy index remote] is the proxy built or the
    error met. *)
Variables Remote Proxy : Type.
Variable NewProxy : Z -> Remote -> Proxy + error.

(** The first [for]: one proxy per remote, stopping at the first
    error. *)
Fixpoint buildProxies (remotes : list Remote) : M (list Proxy + error) :=
  match remotes with
  | [] => ret (inl [])
  | remote :: rest =>
      w <- get ;;
      act (NewProxyCall (proxyCount (tun w))) ;;
      match NewProxy (proxyCount (tun w)) remote with
      | inr err => ret (inr err)
      | inl p =>
          act ProxyCountInc ;;
          ps <- buildProxies rest ;;
          match ps with
          | inl l => ret (inl (p :: l))
          | inr err => ret (inr err)
          end
      end
  end.

(** The second [for]: [eg.Go] for every proxy, in order. *)
Fixpoint startAll (gctx : Ctx) (k : nat) (proxies : list Proxy) (g : Group)
  : M Group :=
  match proxies with
  | [] => ret g
  | _ :: rest =>
      g' <- groupGo gctx k g ;;
      startAll gctx (S k) rest g'
  end.

Definition BindRemotes (ctx gctx : Ctx) (remotes : list Remote)
  (sched : list (nat * option error)) : M (option error) :=
  if (List.length remotes =? 0)%nat then ret (Some "no remotes")
  else
    w <- get ;;
    if negb (Inbound (config (tun w)))
    then ret (Some "inbound connections blocked")
    else
      built <- buildProxies remotes ;;
      match built with
      | inr err => ret (Some err)
      | inl proxies =>
          act (WithContext ctx gctx) ;;
          g <- startAll gctx 0 proxies (mkGroup None []) ;;
          groupWait gctx sched g
      end.

(** Everything that can run against a tunnel. *)
Inductive call :=
| CallBindSSH (ctx : Ctx) (c : Conn) (shutdown : option (option error))
| CallCtxWatch (c : Conn)
| CallGetSSH (env : Env) (timerFirst : bool) (lag : nat) (ctx : Ctx)
    (future : timeline)
| CallClose (env : Env) (timerFirst : bool) (lag : nat) (ctx : Ctx)
    (future : timeline)
| CallKeepAliveLoop (c : Conn) (env : list probe)
| CallBindRemotes (ctx gctx : Ctx) (remotes : list Remote)
    (sched : list (nat * option error)).

Definition perform (k : call) (w : World) : World :=
  match k with
  | CallBindSSH ctx c shutdown => world (BindSSH ctx c shutdown w)
  | CallCtxWatch c => world (ctxWatch c w)
  | CallGetSSH env tf lag ctx future =>
      got_world (getSSH env tf lag ctx w future)
  | CallClose env tf lag ctx future => world (Close env tf lag ctx future w)
  | CallKeepAliveLoop c env => world (keepAliveLoop c env w)
  | CallBindRemotes ctx gctx remotes sched =>
      world (BindRemotes ctx gctx remotes sched w)
  end.

Definition lifetime (calls : list call) (w : World) : World :=
  fold_left (fun w k => perform k w) calls w.

End Remotes.

(** * Vocabulary of the properties *)

Definition gateSane (w : World) : Prop := 0 <= wg_n (activatingConn (tun w)).

Definition sampleConfig : Config :=
  {| Inbound := true; Outbound := true; Socks := false;
     KeepAlive := 30 * Second |}.

Definition freshWorld (cfg : Config) : World := mkWorld (New cfg) [] [].

(** [BindSSH] with an empty slot, step by step. *)
Definition bindTrace (ctx : Ctx) (c : Conn) (keepAlive : bool) : list action :=
  [Go (GoCtxWatch ctx c); SetActive (Some c); GateDone] ++
  (if keepAlive then [Go (GoKeepAlive c)] else []) ++
  [Go GoHandleSSHRequests; Go GoHandleSSHChannels].

(** Blocked in the [select] of [getSSH] with only the timer to wake it:
    the context is live and the gate is pending. *)
Definition asleep (ctx : Ctx) (w : World) : bool :=
  negb (isDone ctx w) && negb (gateOpen w).

(** [getSSH] as worded: once blocked, it ends by cancellation of its
    context with nil, by the timeout with nil, or by the gate with a
    connection. *)
Definition getSSH_wakes_as_worded : Prop :=
  forall env timerFirst lag ctx w future,
    isDone ctx w = false ->
    activeConn (tun w) = None ->
    let g := getSSH env timerFirst lag ctx w future in
    (got_how g = ByCancel /\ got_conn g = None) \/
    (got_how g = ByTimeout /\ got_conn g = None) \/
    (got_how g = ByGate /\ exists c, got_conn g = Some c).

(** A tunnel that has been through one bind cycle under context 1, and
    what happens when that context is cancelled five seconds later. *)
Definition afterOneCycle : World :=
  world (BindSSH 1%nat 7%nat (Some None) (freshWorld sampleConfig)).

Definition cancelOfOldBind : timeline :=
  at_time (5 * Second)
    (Cancel 1%nat :: trace (ctxWatch 7%nat (step (Cancel 1%nat) afterOneCycle))).

(** A probe the monitor survives: the [select] receives nil. *)
Definition probeOK (K : Duration) (p : probe) : bool :=
  match keepAliveSelect K p with
  | ChanCase _ None => true
  | ChanCase _ (Some _) | TimerCase => false
  end.

(** The actions of one round of the loop. *)
Definition pingTrace (K : Duration) (c : Conn) (p : probe) : list action :=
  [Sleep K; Go (GoPing c); SendRequest c "ping" true;
   match keepAliveSelect K p with
   | TimerCase => TimerFired K
   | ChanCase d e => ChanRecv d e
   end].

Definition isPing (a : action) : bool :=
  match a with
  | SendRequest _ _ _ => true
  | _ => false
  end.

Definition isSleep (a : action) : bool :=
  match a with
  | Sleep _ => true
  | _ => false
  end.

(** No reply within one interval of the ping. *)
Definition silentFor (K : Duration) (p : probe) : Prop :=
  match reply_after p with
  | None => True
  | Some d => K < d
  end.

Definition samplePong (d : Duration) : probe :=
  {| reply_after := Some d; reply_err := None; reply_payload := "pong";
     timer_first := false |}.

Definition sampleSilent : probe :=
  {| reply_after := None; reply_err := None; reply_payload := "";
     timer_first := false |}.

Definition sampleBad (d : Duration) : probe :=
  {| reply_after := Some d; reply_err := None; reply_payload := "bad";
     timer_first := false |}.

Definition sampleEmpty (d : Duration) : probe :=
  {| reply_after := Some d; reply_err := None; reply_payload := "";
     timer_first := true |}.

(** A reply that comes back in time, without error and with an empty
    payload. *)
Definition emptyReply (K : Duration) (p : probe) : Prop :=
  (exists d, reply_after p = Some d /\ d < K) /\
  reply_err p = None /\
  reply_payload p = "".

Arguments buildProxies {Remote Proxy} NewProxy remotes.
Arguments startAll {Proxy} gctx k proxies g.
Arguments BindRemotes {Remote Proxy} NewProxy ctx gctx remotes sched.
Arguments CallBindSSH {Remote} ctx c shutdown.
Arguments CallCtxWatch {Remote} c.
Arguments CallGetSSH {Remote} env timerFirst lag ctx future.
Arguments CallClose {Remote} env timerFirst lag ctx future.
Arguments CallKeepAliveLoop {Remote} c env.
Arguments CallBindRemotes {Remote} ctx gctx remotes sched.
Arguments perform {Remote Proxy} NewProxy k w.
Arguments lifetime {Remote Proxy} NewProxy calls w.

Definition isInc (a : action) : bool :=
  match a with
  | ProxyCountInc => true
  | _ => false
  end.

(** How often a trace increments [proxyCount]. *)
Definition incsIn (tr : list action) : Z :=
  Z.of_nat (List.length (filter isInc tr)).

(** The error [Wait] yields for units returning in the order [sched]:
    the first one that is not nil. *)
Fixpoint firstErr (sched : list (nat * option error)) : option error :=
  match sched with
  | [] => None
  | (_, Some e) :: _ => Some e
  | (_, None) :: rest => firstErr rest
  end.

Definition returned (kr : nat * option error) : action :=
  ProxyReturned (fst kr) (snd kr).

(** What the group does while the units return in the order [sched]:
    the context is cancelled right after the first error, once. *)
Fixpoint waitTrace (gctx : Ctx) (failed : bool)
  (sched : list (nat * option error)) : list action :=
  match sched with
  | [] => []
  | (k, r) :: rest =>
      ProxyReturned k r ::
      match r with
      | Some _ =>
          (if failed then [] else [Cancel gctx]) ++ waitTrace gctx true rest
      | None => waitTrace gctx failed rest
      end
  end.

(** [sched] lets each of the units [0 .. n-1] return exactly once. *)
Definition completeFor (n : nat) (sched : list (nat * option error)) : Prop :=
  NoDup (map fst sched) /\ forall k, In k (map fst sched) <-> (k < n)%nat.

Section RemotesVocabulary.

Variables Remote Proxy : Type.
Variable NewProxy : Z -> Remote -> Proxy + error.

(** How many proxies the first loop builds, counting from [pc]. *)
Fixpoint built (pc : Z) (remotes : list Remote) : nat :=
  match remotes with
  | [] => 0
  | remote :: rest =>
      match NewProxy pc remote with
      | inl _ => S (built (pc + 1) rest)
      | inr _ => 0
      end
  end.

(** The actions of the first loop, counting from [pc]. *)
Fixpoint buildTrace (pc : Z) (remotes : list Remote) : list action :=
  match remotes with
  | [] => []
  | remote :: rest =>
      NewProxyCall pc ::
      match NewProxy pc remote with
      | inl _ => ProxyCountInc :: buildTrace (pc + 1) rest
      | inr _ => []
      end
  end.

(** An upper bound on the increments a call can make or witness. *)
Definition incsOf (k : call Remote) : Z :=
  match k with
  | CallBindRemotes _ _ remotes _ => Z.of_nat (List.length remotes)
  | CallGetSSH _ _ _ _ future | CallClose _ _ _ _ future =>
      incsIn (map snd future)
  | CallBindSSH _ _ _ | CallCtxWatch _ | CallKeepAliveLoop _ _ => 0
  end.

Definition incsOfAll (calls : list (call Remote)) : Z :=
  fold_right (fun k n => incsOf k + n) 0 calls.

End RemotesVocabulary.

Arguments built {Remote Proxy} NewProxy pc remotes.
Arguments buildTrace {Remote Proxy} NewProxy pc remotes.
Arguments incsOf {Remote} k.
Arguments incsOfAll {Remote} calls.

(** Sample remotes: a port number; ports below 1024 cannot be bound. *)
Definition sampleNewProxy (index : Z) (port : Z) : (Z * Z) + error :=
  if port <? 1024 then inr "listen: permission denied"
  else inl (index, port).

(** The group after unit [k] has returned [r]. *)
Definition cancels (r : option error) (g : Group) : bool :=
  match r, g_err g with
  | Some _, None => true
  | _, _ => false
  end.

Definition afterReturn (k : nat) (r : option error) (g : Group) : Group :=
  {| g_err := match g_err g with
              | Some e => Some e
              | None => r
              end;
     g_running := filter (fun j => negb (Nat.eqb k j)) (g_running g) |}.

Definition hasFailed (g : Group) : bool :=
  match g_err g with
  | Some _ => true
  | None => false
  end.

(** A sample life of a tunnel: a first [BindRemotes] that fails at its
    second remote, a bind cycle, and a second [BindRemotes] whose two
    proxies run until the second one fails. *)
Definition sampleCalls : list (call Z) :=
  [CallBindRemotes 1%nat 2%nat [8080; 80; 9000] [];
   CallBindSSH 3%nat 7%nat (Some None);
   CallBindRemotes 4%nat 5%nat [8443; 9443]
     [(1%nat, Some "accept failed"); (0%nat, None)]].

(** ** Vocabulary of the further properties *)

(** One reconnect after the other, as the loop around [BindSSH] drives
    it: each cycle binds a connection under a context and ends with the
    error of its [c.Wait()]. *)
Fixpoint bindCycles (cycles : list (Ctx * Conn * option error))
  : M (list (option error)) :=
  match cycles with
  | [] => ret []
  | (ctx, c, e) :: rest =>
      err <- BindSSH ctx c (Some e) ;;
      errs <- bindCycles rest ;;
      ret (err :: errs)
  end.

(** The actions of one complete cycle. *)
Definition cycleTrace (keepAlive : bool) (cy : Ctx * Conn * option error)
  : list action :=
  bindTrace (fst (fst cy)) (snd (fst cy)) keepAlive ++
  [ConnWait (snd (fst cy)); GateAdd 1; SetActive None].

(** The gate never stands open over an empty slot. *)
Definition slotGuarded (w : World) : Prop :=
  gateOpen w = true -> activeConn (tun w) <> None.

Definition registers (a : action) : bool :=
  match a with
  | SetActive (Some _) => true
  | _ => false
  end.

Definition isGo (a : action) : bool :=
  match a with
  | Go _ => true
  | _ => false
  end.

(** Time a trace takes: what it sleeps and what it waits in a [select]. *)
Definition duration (a : action) : Duration :=
  match a with
  | Sleep d | TimerFired d | ChanRecv d _ => d
  | _ => 0
  end.

Definition elapsed (tr : list action) : Duration :=
  fold_right (fun a t => duration a + t) 0 tr.

(** A probe the monitor survives, in terms of what the ping meets: the
    reply is there before the timer (or with it, Go picking the reply),
    the request reports no error, and the payload is empty or "pong". *)
Definition survivable (K : Duration) (p : probe) : Prop :=
  (exists d, reply_after p = Some d /\
             (d < K \/ (d = K /\ timer_first p = false))) /\
  reply_err p = None /\
  (reply_payload p = "" \/ reply_payload p = "pong").

Definition nonnegLatency (p : probe) : Prop :=
  forall d, reply_after p = Some d -> 0 <= d.

Definition sampleFailing : probe :=
  {| reply_after := Some 5; reply_err := Some "EOF"; reply_payload := "pong";
     timer_first := false |}.

(** The actions that write the gate or the slot. *)
Definition touchesGate (a : action) : bool :=
  match a with
  | SetActive _ | GateAdd _ | GateDone | GateDoneAll => true
  | _ => false
  end.

Definition gateAndSlot (w : World) : waitGroup * option Conn :=
  (activatingConn (tun w), activeConn (tun w)).

(** What bind cycles, one after the other, write to the gate and the
    slot. *)
Definition slotActions (cycles : list (Ctx * Conn * option error))
  : list action :=
  flat_map (fun cy => [SetActive (Some (snd (fst cy))); GateDone;
                       GateAdd 1; SetActive None]) cycles.

(** A trace in which the gate and the slot are written by bind cycles
    only, the last of which may still be under way. *)
Definition onlyBindCycles (tr : list action) : Prop :=
  exists cycles rest, filter touchesGate tr ++ rest = slotActions cycles.

(** How long the [select] of one round waits. *)
Definition waited (K : Duration) (p : probe) : Duration :=
  match keepAliveSelect K p with
  | TimerCase => K
  | ChanCase d _ => d
  end.

(** The actions that write the slot. *)
Definition writesSlot (a : action) : bool :=
  match a with
  | SetActive _ => true
  | _ => false
  end.

(** The actions that arm the gate. *)
Definition armsGate (a : action) : bool :=
  match a with
  | GateAdd _ => true
  | _ => false
  end.

(** * Properties *)

(** ** The gate and the single connection slot *)

Lemma step_gateSane a w :
  (forall k, a = GateAdd k -> 0 <= k) -> gateSane w -> gateSane (step a w).
Proof.
  unfold gateSane; intros Hk Hw.
  destruct a; simpl; try assumption.
  - specialize (Hk k eq_refl). lia.
  - unfold wg_Done. destruct (0 <? _) eqn:E; simpl; [apply Z.ltb_lt in E|]; lia.
  - unfold wg_DoneAll. destruct (0 <? _) eqn:E; simpl; lia.
  - unfold markClosed. destruct (isClosed c w); assumption.
  - unfold markClosed. destruct (isClosed c w); assumption.
  - destruct (isDone ctx w); assumption.
Qed.

Lemma replay_app tr1 tr2 w : replay (tr1 ++ tr2) w = replay tr2 (replay tr1 w).
Proof. unfold replay. apply fold_left_app. Qed.

Lemma markClosed_tun c w : tun (markClosed c w) = tun w.
Proof. unfold markClosed. destruct (isClosed c w); reflexivity. Qed.

Lemma markClosed_isClosed c w : isClosed c (markClosed c w) = true.
Proof.
  unfold markClosed. destruct (isClosed c w) eqn:E; [exact E|].
  unfold isClosed; simpl. rewrite Nat.eqb_refl. reflexivity.
Qed.

Lemma markClosed_idem c w : markClosed c (markClosed c w) = markClosed c w.
Proof.
  unfold markClosed at 1. rewrite markClosed_isClosed. reflexivity.
Qed.

Lemma BindSSH_unbound ctx c e w :
  activeConn (tun w) = None ->
  BindSSH ctx c (Some e) w =
  let tr := bindTrace ctx c (0 <? KeepAlive (config (tun w))) ++
            [ConnWait c; GateAdd 1; SetActive None] in
  mkResult (Returned e) (replay tr w) tr.
Proof.
  intros H. unfold BindSSH, bindTrace, bind, act, get, connWait, when. simpl.
  rewrite H.
  destruct (0 <? KeepAlive (config (tun w))); reflexivity.
Qed.

Lemma BindSSH_never_closing ctx c w :
  activeConn (tun w) = None ->
  out (BindSSH ctx c None w) = Blocked.
Proof.
  intros H. unfold BindSSH, bind, act, get, connWait, when, block. simpl.
  rewrite H.
  destruct (0 <? KeepAlive (config (tun w))); reflexivity.
Qed.

Lemma BindSSH_bound ctx c shutdown w c0 :
  activeConn (tun w) = Some c0 ->
  BindSSH ctx c shutdown w =
  mkResult (Panicked "double bind ssh") w [Go (GoCtxWatch ctx c)].
Proof.
  intros H. unfold BindSSH, bind, act, get, panic. cbn. rewrite H. reflexivity.
Qed.

(** C3: [BindSSH] on a tunnel whose slot holds a connection panics with
    "double bind ssh"; the tunnel is left as it was, so the connection
    already registered stays the only one and the new one is never
    registered. *)
Theorem BindSSH_double_bind_panics ctx c shutdown w c0
  (Hactive : activeConn (tun w) = Some c0) :
  let r := BindSSH ctx c shutdown w in
  out r = Panicked "double bind ssh" /\
  world r = w /\
  activeConn (tun (world r)) = Some c0 /\
  (forall c', ~ In (SetActive c') (trace r)) /\
  ~ In GateDone (trace r).
Proof.
  rewrite (BindSSH_bound ctx c shutdown w c0 Hactive). cbn.
  repeat split; try assumption.
  - intros c' [F|[]]; discriminate.
  - intros [F|[]]; discriminate.
Qed.

Lemma BindSSH_double_bind_panics_witness :
  let w := world (BindSSH 1%nat 7%nat None (freshWorld sampleConfig)) in
  activeConn (tun w) = Some 7%nat /\
  out (BindSSH 2%nat 8%nat (Some None) w) = Panicked "double bind ssh" /\
  activeConn (tun (world (BindSSH 2%nat 8%nat (Some None) w))) = Some 7%nat.
Proof.
  split; [reflexivity|].
  pose proof (BindSSH_double_bind_panics 2%nat 8%nat (Some None)
    (world (BindSSH 1%nat 7%nat None (freshWorld sampleConfig))) 7%nat eq_refl)
    as (Hout & _ & Hact & _).
  split; [exact Hout | exact Hact].
Defined.

(** A connection is only ever written into an empty slot. *)
Lemma BindSSH_registers_into_empty_slot ctx c shutdown w c' :
  In (SetActive (Some c')) (trace (BindSSH ctx c shutdown w)) ->
  activeConn (tun w) = None /\ c' = c.
Proof.
  destruct (activeConn (tun w)) as [c0|] eqn:E.
  - rewrite (BindSSH_bound ctx c shutdown w c0 E). cbn.
    intros [Hin|[]]; discriminate.
  - intros Hin. split; [reflexivity|].
    destruct shutdown as [e|].
    + rewrite (BindSSH_unbound ctx c e w E) in Hin. simpl in Hin.
      unfold bindTrace in Hin.
      destruct (0 <? KeepAlive (config (tun w))); simpl in Hin;
        repeat (destruct Hin as [Hin|Hin]; [try discriminate; try (injection Hin; intros; subst; reflexivity)|]);
        contradiction.
    + revert Hin. unfold BindSSH, bind, act, get, connWait, when, block. simpl.
      rewrite E.
      destruct (0 <? KeepAlive (config (tun w))); simpl; intros Hin;
        repeat (destruct Hin as [Hin|Hin]; [try discriminate; try (injection Hin; intros; subst; reflexivity)|]);
        contradiction.
Qed.

Lemma BindSSH_returns_only_unbound ctx c shutdown w x :
  out (BindSSH ctx c shutdown w) = Returned x ->
  activeConn (tun w) = None /\ shutdown = Some x.
Proof.
  destruct (activeConn (tun w)) as [c0|] eqn:E.
  - rewrite (BindSSH_bound ctx c shutdown w c0 E). discriminate.
  - destruct shutdown as [e|].
    + rewrite (BindSSH_unbound ctx c e w E). simpl. intros [= ->]. auto.
    + rewrite (BindSSH_never_closing ctx c w E). discriminate.
Qed.

(** C7: [BindSSH] returns exactly when the slot was empty and the
    connection shuts down.  It then returns the error of [c.Wait()], the
    slot is empty again and the gate is pending; its last three actions
    are [c.Wait()], [activatingConn.Add(1)] and the clearing of the slot
    in this order, so that right before the slot is cleared the gate is
    already pending while the connection is still registered; and in
    whatever state [c.Wait()] returns, [Add(1)] followed by the clearing
    leaves the gate pending throughout. *)
Theorem BindSSH_return_rearms ctx c e w
  (Hsane : gateSane w)
  (Hfree : activeConn (tun w) = None) :
  let r := BindSSH ctx c (Some e) w in
  out r = Returned e /\
  activeConn (tun (world r)) = None /\
  wg_pending (activatingConn (tun (world r))) = true /\
  exists pre,
    trace r = pre ++ [ConnWait c; GateAdd 1; SetActive None] /\
    ~ In (SetActive None) pre /\ ~ In (GateAdd 1) pre /\
    let before_clear := replay (pre ++ [ConnWait c; GateAdd 1]) w in
    wg_pending (activatingConn (tun before_clear)) = true /\
    activeConn (tun before_clear) = Some c /\
    world r = step (SetActive None) before_clear /\
    (forall w', gateSane w' ->
       wg_pending (activatingConn (tun (step (GateAdd 1) w'))) = true /\
       wg_pending (activatingConn (tun (replay [GateAdd 1; SetActive None] w')))
         = true /\
       activeConn (tun (replay [GateAdd 1; SetActive None] w')) = None).
Proof.
  rewrite (BindSSH_unbound ctx c e w Hfree). cbv zeta.
  set (pre := bindTrace ctx c (0 <? KeepAlive (config (tun w)))).
  assert (Hpend : wg_pending (activatingConn (tun (replay (pre ++ [ConnWait c; GateAdd 1]) w))) = true).
  { unfold gateSane in Hsane. subst pre. unfold bindTrace.
    destruct (0 <? KeepAlive (config (tun w))); simpl;
      rewrite !markClosed_tun; simpl; unfold wg_pending, wg_Add, wg_Done;
      destruct (0 <? wg_n (activatingConn (tun w))) eqn:E; simpl;
      apply Z.ltb_lt; try apply Z.ltb_lt in E; try apply Z.ltb_ge in E; lia. }
  assert (Hact : activeConn (tun (replay (pre ++ [ConnWait c; GateAdd 1]) w)) = Some c).
  { subst pre. unfold bindTrace.
    destruct (0 <? KeepAlive (config (tun w))); simpl;
      rewrite !markClosed_tun; reflexivity. }
  assert (Hlast : replay (pre ++ [ConnWait c; GateAdd 1; SetActive None]) w =
                  step (SetActive None) (replay (pre ++ [ConnWait c; GateAdd 1]) w)).
  { change [ConnWait c; GateAdd 1; SetActive None]
      with ([ConnWait c; GateAdd 1] ++ [SetActive None]).
    rewrite app_assoc. rewrite (replay_app (pre ++ [ConnWait c; GateAdd 1])).
    reflexivity. }
  cbn [out world trace].
  split; [reflexivity|].
  split; [rewrite Hlast; reflexivity|].
  split; [rewrite Hlast; simpl; exact Hpend|].
  exists pre. split; [reflexivity|].
  split.
  { subst pre. unfold bindTrace.
    destruct (0 <? KeepAlive (config (tun w))); simpl; intuition discriminate. }
  split.
  { subst pre. unfold bindTrace.
    destruct (0 <? KeepAlive (config (tun w))); simpl; intuition discriminate. }
  cbv zeta. split; [exact Hpend|]. split; [exact Hact|]. split; [exact Hlast|].
  intros w' Hw'. unfold gateSane in Hw'.
  cbn. unfold wg_pending, wg_Add. cbn.
  repeat split; apply Z.ltb_lt; lia.
Qed.

Lemma BindSSH_return_rearms_witness :
  let r := BindSSH 1%nat 7%nat (Some (Some "EOF")) (freshWorld sampleConfig) in
  out r = Returned (Some "EOF") /\
  activeConn (tun (world r)) = None /\
  wg_pending (activatingConn (tun (world r))) = true.
Proof.
  assert (Hsane : gateSane (freshWorld sampleConfig)) by (unfold gateSane; simpl; lia).
  pose proof (BindSSH_return_rearms 1%nat 7%nat (Some "EOF")
    (freshWorld sampleConfig) Hsane eq_refl) as (H1 & H2 & H3 & _).
  split; [exact H1 | split; [exact H2 | exact H3]].
Defined.

(** ** getSSH *)

Lemma awaitSelect_spec D tf lag ctx future : forall now w,
  exists pre post,
    future = pre ++ post /\
    (forall p q, pre = p ++ q -> q <> [] ->
       asleep ctx (replay (map snd p) w) = true) /\
    got_at (awaitSelect D tf lag ctx now w future) <= Z.max now D /\
    match got_how (awaitSelect D tf lag ctx now w future) with
    | ByCancel =>
        got_conn (awaitSelect D tf lag ctx now w future) = None /\
        got_world (awaitSelect D tf lag ctx now w future) =
          replay (map snd pre) w /\
        isDone ctx (got_world (awaitSelect D tf lag ctx now w future)) = true
    | ByTimeout =>
        got_conn (awaitSelect D tf lag ctx now w future) = None /\
        got_world (awaitSelect D tf lag ctx now w future) =
          replay (map snd pre) w /\
        got_at (awaitSelect D tf lag ctx now w future) = Z.max now D
    | ByGate =>
        isDone ctx (replay (map snd pre) w) = false /\
        gateOpen (replay (map snd pre) w) = true /\
        got_world (awaitSelect D tf lag ctx now w future) =
          readAfter lag (replay (map snd pre) w) post /\
        got_conn (awaitSelect D tf lag ctx now w future) =
          activeConn (tun (got_world (awaitSelect D tf lag ctx now w future)))
    | AlreadyCancelled | AlreadyConnected => False
    end.
Proof.
  assert (Hnone : forall (p q : timeline), [] = p ++ q -> q <> [] -> False).
  { intros p q Hpq Hq. destruct p; destruct q; try discriminate; congruence. }
  induction future as [|[d a] rest IH]; intros now w.
  - cbn [awaitSelect].
    destruct ((D <=? now) && (tf || negb (isDone ctx w || gateOpen w))) eqn:E1.
    { exists [], []. cbn. apply andb_prop in E1 as [E1 _]. apply Z.leb_le in E1.
      repeat split; try lia. intros p q Hpq Hq. destruct (Hnone p q Hpq Hq). }
    destruct (isDone ctx w) eqn:E2.
    { exists [], []. cbn. repeat split; try lia; try assumption.
      intros p q Hpq Hq. destruct (Hnone p q Hpq Hq). }
    destruct (gateOpen w) eqn:E3.
    { exists [], []. cbn. repeat split; try lia; try assumption.
      intros p q Hpq Hq. destruct (Hnone p q Hpq Hq). }
    exists [], []. cbn. rewrite orb_true_r, andb_true_r in E1.
    apply Z.leb_gt in E1.
    repeat split; try lia.
    intros p q Hpq Hq. destruct (Hnone p q Hpq Hq).
  - cbn [awaitSelect].
    destruct ((D <=? now) && (tf || negb (isDone ctx w || gateOpen w))) eqn:E1.
    { exists [], ((d, a) :: rest). cbn.
      apply andb_prop in E1 as [E1 _]. apply Z.leb_le in E1.
      repeat split; try lia. intros p q Hpq Hq. destruct (Hnone p q Hpq Hq). }
    destruct (isDone ctx w) eqn:E2.
    { exists [], ((d, a) :: rest). cbn. repeat split; try lia; try assumption.
      intros p q Hpq Hq. destruct (Hnone p q Hpq Hq). }
    destruct (gateOpen w) eqn:E3.
    { exists [], ((d, a) :: rest). cbn [got_how got_at got_conn got_world app].
      split; [reflexivity|].
      split; [intros p q Hpq Hq; destruct (Hnone p q Hpq Hq)|].
      split; [lia|]. cbn [map replay fold_left]. auto. }
    rewrite orb_true_r, andb_true_r in E1. apply Z.leb_gt in E1.
    destruct (D <? d) eqn:E4.
    { exists [], ((d, a) :: rest). cbn. repeat split; try lia.
      intros p q Hpq Hq. destruct (Hnone p q Hpq Hq). }
    apply Z.ltb_ge in E4.
    destruct (IH d (step a w)) as (pre & post & Hfut & Hsleep & Hat & Hhow).
    exists ((d, a) :: pre), post.
    split; [rewrite Hfut; reflexivity|].
    split.
    { intros p q Hpq Hq. destruct p as [|x p].
      - cbn. unfold asleep. rewrite E2, E3. reflexivity.
      - injection Hpq as Hx Hpq. subst x. cbn. apply (Hsleep p q Hpq Hq). }
    split; [lia|].
    change (replay (map snd ((d, a) :: pre)) w)
      with (replay (map snd pre) (step a w)).
    destruct (got_how (awaitSelect D tf lag ctx d (step a w) rest));
      try assumption.
    destruct Hhow as (Hc & Hw & Ht). split; [exact Hc|]. split; [exact Hw|lia].
Qed.

(** Whatever way [getSSH] ends, the world it returns in is the one some
    first part of the timeline leads to. *)
Lemma awaitSelect_world D tf lag ctx future now w :
  exists pre post,
    future = pre ++ post /\
    got_world (awaitSelect D tf lag ctx now w future) = replay (map snd pre) w.
Proof.
  destruct (awaitSelect_spec D tf lag ctx future now w)
    as (pre & post & Hfut & _ & _ & Hhow).
  destruct (got_how (awaitSelect D tf lag ctx now w future));
    try contradiction.
  - exists pre, post. split; [exact Hfut|apply Hhow].
  - exists pre, post. split; [exact Hfut|apply Hhow].
  - destruct Hhow as (_ & _ & Hw & _).
    exists (pre ++ firstn lag post), (skipn lag post).
    split; [rewrite <- app_assoc, firstn_skipn; exact Hfut|].
    rewrite Hw. unfold readAfter. rewrite map_app, replay_app. reflexivity.
Qed.

Lemma sshWait_default : sshWait (fun _ => None) = 35 * Second.
Proof. reflexivity. Qed.

Lemma sshWait_configured env d :
  env "SSH_WAIT" = Some d -> sshWait env = d.
Proof. unfold sshWait, EnvDuration. intros ->. reflexivity. Qed.

(** The gate is released by [DoneAll] when the context of a finished
    [BindSSH] is cancelled: a blocked [getSSH] then finds the slot empty. *)
Lemma getSSH_after_cancel_of_old_bind :
  getSSH (fun _ => None) false 0%nat 2%nat afterOneCycle cancelOfOldBind =
  mkGot None ByGate (5 * Second)
    (replay (map snd cancelOfOldBind) afterOneCycle).
Proof. vm_compute. reflexivity. Qed.

(** Counterexample to C2 as worded: a tunnel goes through one bind cycle under
    context 1 (connection 7 is bound, shuts down, [BindSSH] returns); a
    caller with the live context 2 then blocks in [getSSH]; five seconds
    later context 1 is cancelled and the goroutine of that [BindSSH] runs
    [DoneAll].  [getSSH] returns nil through the gate case, 30 seconds
    before its timeout, with its own context still live. *)
Lemma getSSH_gate_released_without_connection :
  ~ getSSH_wakes_as_worded.
Proof.
  intros H.
  specialize (H (fun _ => None) false 0%nat 2%nat afterOneCycle
                cancelOfOldBind eq_refl eq_refl).
  rewrite getSSH_after_cancel_of_old_bind in H. cbn in H.
  destruct H as [[H _]|[[H _]|[_ [c H]]]]; discriminate.
Qed.

Lemma awaitSelect_gate_open D tf lag ctx now w future :
  (D <=? now) = false ->
  isDone ctx w = false ->
  gateOpen w = true ->
  awaitSelect D tf lag ctx now w future =
  mkGot (activeConn (tun (readAfter lag w future))) ByGate now
    (readAfter lag w future).
Proof.
  intros HD Hlive Hopen.
  destruct future as [|[d a] rest]; cbn [awaitSelect];
    rewrite HD, Hlive, Hopen; reflexivity.
Qed.

Lemma replay_without_slot_write tr : forall w,
  Forall (fun a => writesSlot a = false) tr ->
  activeConn (tun (replay tr w)) = activeConn (tun w).
Proof.
  induction tr as [|a tr IH]; intros w Hall; [reflexivity|].
  inversion Hall as [|? ? Ha Htr]; subst.
  change (replay (a :: tr) w) with (replay tr (step a w)).
  rewrite (IH _ Htr).
  destruct a; cbn [step setTun setGate tun activeConn];
    rewrite ?markClosed_tun; try reflexivity.
  - discriminate Ha.
  - destruct (isDone ctx w); reflexivity.
Qed.

Lemma replay_without_registration tr : forall w,
  Forall (fun a => registers a = false) tr ->
  activeConn (tun w) = None ->
  activeConn (tun (replay tr w)) = None.
Proof.
  induction tr as [|a tr IH]; intros w Hall Hnone; [exact Hnone|].
  inversion Hall as [|? ? Ha Htr]; subst.
  change (replay (a :: tr) w) with (replay tr (step a w)).
  apply IH; [exact Htr|].
  destruct a; cbn [step setTun setGate tun activeConn];
    rewrite ?markClosed_tun; try assumption.
  - destruct c; [discriminate Ha|reflexivity].
  - destruct (isDone ctx w); assumption.
Qed.

(** A caller blocked on a pending gate is woken when the next [BindSSH]
    has registered its connection and opened the gate; what it gets is
    the slot as it is [lag] actions later. *)
Lemma getSSH_woken_by_bind env tf lag ctx w bctx c d rest :
  isDone ctx w = false ->
  activeConn (tun w) = None ->
  wg_n (activatingConn (tun w)) = 1 ->
  0 <= d < sshWait env ->
  getSSH env tf lag ctx w
    (at_time d [Go (GoCtxWatch bctx c); SetActive (Some c); GateDone] ++ rest) =
  let opened := replay [Go (GoCtxWatch bctx c); SetActive (Some c); GateDone] w in
  mkGot (activeConn (tun (readAfter lag opened rest))) ByGate d
    (readAfter lag opened rest).
Proof.
  intros Hlive Hfree Hgate [Hd0 HdD].
  unfold getSSH. rewrite Hlive, Hfree.
  assert (H0 : (sshWait env <=? 0) = false) by (apply Z.leb_gt; lia).
  assert (H1 : (sshWait env <=? d) = false) by (apply Z.leb_gt; lia).
  assert (H2 : (sshWait env <? d) = false) by (apply Z.ltb_ge; lia).
  assert (Hshut : gateOpen w = false).
  { unfold gateOpen, wg_pending. rewrite Hgate. reflexivity. }
  unfold at_time. cbn [map app awaitSelect].
  rewrite H0, H1, H2, Hlive, Hshut. cbn [andb orb negb].
  change (step (Go (GoCtxWatch bctx c)) w) with w.
  rewrite Hlive, Hshut.
  set (w1 := step (SetActive (Some c)) w).
  assert (Hlive1 : isDone ctx w1 = false) by exact Hlive.
  assert (Hshut1 : gateOpen w1 = false) by exact Hshut.
  rewrite Hlive1, Hshut1.
  rewrite awaitSelect_gate_open.
  - reflexivity.
  - exact H1.
  - exact Hlive.
  - unfold gateOpen, wg_pending. subst w1.
    cbn [step setGate setTun tun activatingConn].
    unfold wg_Done. rewrite Hgate. reflexivity.
Qed.

(** C2, amended: [getSSH] returns nil at once when [ctx] is already
    cancelled, and the registered connection at once when there is one.
    Otherwise it stays blocked while its context is live and the gate is
    pending, for at most the readiness timeout (the duration configured
    under SSH_WAIT, 35 seconds by default), and wakes with the first of:
    cancellation of [ctx], yielding nil; the timeout, yielding nil; the
    gate opening, yielding the slot as the caller reads it once it runs
    again.  Woken by a [BindSSH] it gets the connection just registered
    if no one has written the slot by the time it reads, and nil if that
    [BindSSH] has already cleared the slot by then; woken by a release of
    the gate over an empty slot it gets nil. *)
Theorem getSSH_cases env timerFirst lag ctx w future :
  (isDone ctx w = true ->
     getSSH env timerFirst lag ctx w future =
     mkGot None AlreadyCancelled 0 w) /\
  (isDone ctx w = false -> forall c, activeConn (tun w) = Some c ->
     getSSH env timerFirst lag ctx w future =
     mkGot (Some c) AlreadyConnected 0 w) /\
  (isDone ctx w = false -> activeConn (tun w) = None ->
     let g := getSSH env timerFirst lag ctx w future in
     exists pre post,
       future = pre ++ post /\
       (forall p q, pre = p ++ q -> q <> [] ->
          asleep ctx (replay (map snd p) w) = true) /\
       got_at g <= Z.max 0 (sshWait env) /\
       match got_how g with
       | ByCancel =>
           got_conn g = None /\
           got_world g = replay (map snd pre) w /\
           isDone ctx (got_world g) = true
       | ByTimeout =>
           got_conn g = None /\
           got_world g = replay (map snd pre) w /\
           got_at g = Z.max 0 (sshWait env)
       | ByGate =>
           isDone ctx (replay (map snd pre) w) = false /\
           gateOpen (replay (map snd pre) w) = true /\
           got_world g = readAfter lag (replay (map snd pre) w) post /\
           got_conn g = activeConn (tun (got_world g))
       | AlreadyCancelled | AlreadyConnected => False
       end) /\
  (isDone ctx w = false -> activeConn (tun w) = None ->
     wg_n (activatingConn (tun w)) = 1 ->
     forall bctx c d rest,
       0 <= d < sshWait env ->
       let g := getSSH env timerFirst lag ctx w
                  (at_time d [Go (GoCtxWatch bctx c); SetActive (Some c);
                              GateDone] ++ rest) in
       got_how g = ByGate /\ got_at g = d /\
       (Forall (fun ev => writesSlot (snd ev) = false) (firstn lag rest) ->
        got_conn g = Some c) /\
       (In (SetActive None) (map snd (firstn lag rest)) ->
        Forall (fun ev => registers (snd ev) = false) (firstn lag rest) ->
        got_conn g = None)) /\
  sshWait (fun _ => None) = 35 * Second /\
  (forall d, env "SSH_WAIT" = Some d -> sshWait env = d).
Proof.
  split; [unfold getSSH; intros ->; reflexivity|].
  split; [unfold getSSH; intros -> c ->; reflexivity|].
  split.
  { unfold getSSH. intros -> ->. cbv zeta. apply awaitSelect_spec. }
  split; [|split; [apply sshWait_default | apply sshWait_configured]].
  intros Hlive Hfree Hgate bctx c d rest Hd. cbv zeta.
  rewrite (getSSH_woken_by_bind env timerFirst lag ctx w bctx c d rest
             Hlive Hfree Hgate Hd).
  cbv zeta. cbn [got_how got_at got_conn].
  split; [reflexivity|]. split; [reflexivity|]. split.
  - intros Hquiet. unfold readAfter.
    rewrite replay_without_slot_write; [reflexivity|].
    apply Forall_map. exact Hquiet.
  - intros Hclear Hnone. unfold readAfter.
    apply in_split in Hclear as (l1 & l2 & Hsplit).
    rewrite Hsplit, replay_app.
    change (replay (SetActive None :: l2) ?w0)
      with (replay l2 (step (SetActive None) w0)).
    apply replay_without_registration; [|reflexivity].
    apply (Forall_map snd (fun a => registers a = false)) in Hnone.
    rewrite Hsplit in Hnone. apply Forall_app in Hnone as [_ Hnone].
    inversion Hnone; assumption.
Qed.

Lemma getSSH_cases_witness :
  let g := getSSH (fun _ => None) true 2%nat 2%nat (freshWorld sampleConfig)
             (at_time (3 * Second) (bindTrace 1%nat 7%nat true)) in
  exists pre post,
    at_time (3 * Second) (bindTrace 1%nat 7%nat true) = pre ++ post /\
    got_how g = ByGate /\ got_conn g = Some 7%nat.
Proof.
  destruct (getSSH_cases (fun _ => None) true 2%nat 2%nat
              (freshWorld sampleConfig)
              (at_time (3 * Second) (bindTrace 1%nat 7%nat true)))
    as (_ & _ & H & _).
  destruct (H eq_refl eq_refl) as (pre & post & Hfut & _).
  exists pre, post.
  split; [exact Hfut|]. split; reflexivity.
Defined.

(** ** Close *)

Lemma Close_eq env timerFirst lag ctx future w :
  Close env timerFirst lag ctx future w =
  match got_conn (getSSH env timerFirst lag ctx w future) with
  | None =>
      mkResult (Returned None)
        (got_world (getSSH env timerFirst lag ctx w future)) []
  | Some c => connClose c (got_world (getSSH env timerFirst lag ctx w future))
  end.
Proof.
  unfold Close, bind, getSSH_M.
  destruct (got_conn (getSSH env timerFirst lag ctx w future)) as [c|];
    [|reflexivity].
  unfold connClose, bind, get, act, ret. reflexivity.
Qed.

(** C8: [Close] asks [getSSH] for the connection; when [getSSH] yields
    nil (also after the readiness timeout) it returns nil and closes
    nothing, otherwise it returns what closing that connection returns. *)
Theorem Close_cases env timerFirst lag ctx future w :
  let g := getSSH env timerFirst lag ctx w future in
  (got_conn g = None ->
     Close env timerFirst lag ctx future w =
     mkResult (Returned None) (got_world g) []) /\
  (forall c, got_conn g = Some c ->
     Close env timerFirst lag ctx future w = connClose c (got_world g) /\
     out (Close env timerFirst lag ctx future w) =
       Returned (if isClosed c (got_world g) then Some errClosed else None) /\
     trace (Close env timerFirst lag ctx future w) = [ConnClose c] /\
     isClosed c (world (Close env timerFirst lag ctx future w)) = true).
Proof.
  cbv zeta. rewrite Close_eq.
  destruct (got_conn (getSSH env timerFirst lag ctx w future)) as [c|].
  - split; [discriminate|]. intros c' [= <-].
    unfold connClose, bind, get, act, ret. cbn.
    repeat split. apply markClosed_isClosed.
  - split; [reflexivity|]. discriminate.
Qed.

Lemma Close_cases_witness :
  Close (fun _ => None) false 0%nat 2%nat [] (freshWorld sampleConfig) =
  mkResult (Returned None)
    (got_world (getSSH (fun _ => None) false 0%nat 2%nat (freshWorld sampleConfig) []))
    [].
Proof.
  apply (proj1 (Close_cases (fun _ => None) false 0%nat 2%nat []
                  (freshWorld sampleConfig))).
  reflexivity.
Defined.

(** ** Keepalive *)

Lemma pingForever_ok K c p rest w :
  probeOK K p = true ->
  pingForever K c (p :: rest) w =
  mkResult (out (pingForever K c rest w)) (world (pingForever K c rest w))
    (pingTrace K c p ++ trace (pingForever K c rest w)).
Proof.
  unfold probeOK, pingTrace. cbn [pingForever].
  destruct (keepAliveSelect K p) as [|d [e|]]; try discriminate.
  intros _. unfold bind, act. cbn.
  destruct (pingForever K c rest w). reflexivity.
Qed.

Lemma pingForever_fails K c p rest w :
  probeOK K p = false ->
  pingForever K c (p :: rest) w = mkResult (Returned tt) w (pingTrace K c p).
Proof.
  unfold probeOK, pingTrace. cbn [pingForever].
  destruct (keepAliveSelect K p) as [|d [e|]]; try discriminate;
    intros _; reflexivity.
Qed.

Lemma pingForever_alive K c ps w :
  Forall (fun p => probeOK K p = true) ps ->
  pingForever K c ps w = mkResult Blocked w (flat_map (pingTrace K c) ps).
Proof.
  induction 1 as [|p ps Hp _ IH].
  - reflexivity.
  - rewrite (pingForever_ok K c p ps w Hp), IH. reflexivity.
Qed.

Lemma pingForever_first_failure K c ps p rest w :
  Forall (fun p => probeOK K p = true) ps ->
  probeOK K p = false ->
  pingForever K c (ps ++ p :: rest) w =
  mkResult (Returned tt) w (flat_map (pingTrace K c) ps ++ pingTrace K c p).
Proof.
  intros Hps Hp. induction Hps as [|q ps Hq _ IH].
  - cbn [app flat_map]. apply pingForever_fails. exact Hp.
  - cbn [app flat_map]. rewrite (pingForever_ok K c q _ w Hq), IH.
    cbn [out world trace]. rewrite app_assoc. reflexivity.
Qed.

Lemma keepAliveLoop_first_failure c ps p rest w :
  let K := KeepAlive (config (tun w)) in
  Forall (fun p => probeOK K p = true) ps ->
  probeOK K p = false ->
  keepAliveLoop c (ps ++ p :: rest) w =
  mkResult (Returned tt) (markClosed c w)
    (flat_map (pingTrace K c) ps ++ pingTrace K c p ++ [ConnClose c]).
Proof.
  intros K Hps Hp. unfold keepAliveLoop, bind, get, connClose. cbn.
  fold K. rewrite (pingForever_first_failure K c ps p rest w Hps Hp).
  unfold bind, get, act, ret. cbn.
  rewrite <- app_assoc. reflexivity.
Qed.

Lemma keepAliveLoop_alive c ps w :
  Forall (fun p => probeOK (KeepAlive (config (tun w))) p = true) ps ->
  keepAliveLoop c ps w =
  mkResult Blocked w (flat_map (pingTrace (KeepAlive (config (tun w))) c) ps).
Proof.
  intros Hps. unfold keepAliveLoop, bind, get. cbn.
  rewrite (pingForever_alive _ c ps w Hps). reflexivity.
Qed.

Lemma count_pings K c ps :
  List.length (filter isPing (flat_map (pingTrace K c) ps)) = List.length ps.
Proof.
  induction ps as [|p ps IH]; [reflexivity|].
  cbn [flat_map]. rewrite filter_app, length_app, IH.
  unfold pingTrace. cbn. destruct (keepAliveSelect K p); reflexivity.
Qed.

Lemma count_sleeps K c ps :
  List.length (filter isSleep (flat_map (pingTrace K c) ps)) = List.length ps.
Proof.
  induction ps as [|p ps IH]; [reflexivity|].
  cbn [flat_map]. rewrite filter_app, length_app, IH.
  unfold pingTrace. cbn. destruct (keepAliveSelect K p); reflexivity.
Qed.

Lemma silent_times_out K p : silentFor K p -> keepAliveSelect K p = TimerCase.
Proof.
  unfold silentFor, keepAliveSelect. destruct (reply_after p) as [d|]; [|reflexivity].
  intros H.
  destruct (d <? K) eqn:E1; [apply Z.ltb_lt in E1; lia|].
  destruct (d =? K) eqn:E2; [apply Z.eqb_eq in E2; lia|]. reflexivity.
Qed.

Lemma BindSSH_starts_keepalive ctx c shutdown w :
  activeConn (tun w) = None ->
  0 < KeepAlive (config (tun w)) ->
  In (Go (GoKeepAlive c)) (trace (BindSSH ctx c shutdown w)).
Proof.
  intros Hfree HK. apply Z.ltb_lt in HK.
  unfold BindSSH, bind, act, get, connWait, when. cbn.
  rewrite Hfree, HK. destruct shutdown; cbn; auto 10.
Qed.

Lemma BindSSH_without_keepalive ctx c shutdown w :
  KeepAlive (config (tun w)) <= 0 ->
  ~ In (Go (GoKeepAlive c)) (trace (BindSSH ctx c shutdown w)).
Proof.
  intros HK. apply Z.ltb_ge in HK.
  unfold BindSSH, bind, act, get, connWait, when, panic. cbn.
  rewrite HK. destruct (activeConn (tun w)); destruct shutdown; cbn;
    intuition discriminate.
Qed.

Lemma select_wait_bounded K p d e :
  keepAliveSelect K p = ChanCase d e -> d <= K.
Proof.
  unfold keepAliveSelect. destruct (reply_after p) as [d'|]; [|discriminate].
  destruct (d' <? K) eqn:E1.
  - intros [= <- _]. apply Z.ltb_lt in E1. lia.
  - destruct ((d' =? K) && negb (timer_first p)) eqn:E2; [|discriminate].
    intros [= <- _]. apply andb_prop in E2 as [E2 _]. apply Z.eqb_eq in E2. lia.
Qed.

(** C1: the monitor is started by [BindSSH] when the keepalive interval
    is positive.  Every round sleeps one interval, sends one ping and
    waits for the reply for at most one interval.  When a ping gets no
    reply within one interval the timer case is taken, the connection is
    closed and the loop returns: no further ping is sent.  Closing leaves
    an already closed connection as it is. *)
Theorem keepAliveLoop_timeout c ps p rest w
  (Hstarted : 0 < KeepAlive (config (tun w)))
  (Hps : Forall (fun q => probeOK (KeepAlive (config (tun w))) q = true) ps)
  (Hsilent : silentFor (KeepAlive (config (tun w))) p) :
  let K := KeepAlive (config (tun w)) in
  let r := keepAliveLoop c (ps ++ p :: rest) w in
  out r = Returned tt /\
  trace r = flat_map (pingTrace K c) ps ++
            [Sleep K; Go (GoPing c); SendRequest c "ping" true;
             TimerFired K; ConnClose c] /\
  List.length (filter isPing (trace r)) = S (List.length ps) /\
  List.length (filter isSleep (trace r)) = S (List.length ps) /\
  (forall q d e, keepAliveSelect K q = ChanCase d e -> d <= K) /\
  world r = markClosed c w /\
  isClosed c (world r) = true /\
  world (connClose c (world r)) = world r /\
  (isClosed c w = true -> world r = w) /\
  (forall ctx shutdown w0,
     config (tun w0) = config (tun w) -> activeConn (tun w0) = None ->
     In (Go (GoKeepAlive c)) (trace (BindSSH ctx c shutdown w0))).
Proof.
  intros K r.
  assert (Hp : probeOK K p = false).
  { unfold probeOK. rewrite (silent_times_out K p Hsilent). reflexivity. }
  assert (Hr : r = mkResult (Returned tt) (markClosed c w)
                 (flat_map (pingTrace K c) ps ++ pingTrace K c p ++ [ConnClose c])).
  { apply keepAliveLoop_first_failure; assumption. }
  assert (Htr : pingTrace K c p ++ [ConnClose c] =
                [Sleep K; Go (GoPing c); SendRequest c "ping" true;
                 TimerFired K; ConnClose c]).
  { unfold pingTrace. rewrite (silent_times_out K p Hsilent). reflexivity. }
  rewrite Hr, Htr. cbn [out world trace].
  split; [reflexivity|]. split; [reflexivity|].
  split. { rewrite filter_app, length_app, count_pings. cbn. lia. }
  split. { rewrite filter_app, length_app, count_sleeps. cbn. lia. }
  split. { intros q d e. apply select_wait_bounded. }
  split; [reflexivity|].
  split; [apply markClosed_isClosed|].
  split. { unfold connClose, bind, get, act, ret. cbn. apply markClosed_idem. }
  split. { intros Hc. unfold markClosed. rewrite Hc. reflexivity. }
  intros ctx shutdown w0 Hcfg Hfree.
  apply BindSSH_starts_keepalive; [exact Hfree|]. rewrite Hcfg. exact Hstarted.
Qed.

Lemma keepAliveLoop_timeout_witness :
  let r := keepAliveLoop 7%nat
             ([samplePong 1000; samplePong 2000] ++ sampleSilent :: [samplePong 5])
             (freshWorld sampleConfig) in
  out r = Returned tt /\
  List.length (filter isPing (trace r)) = 3%nat /\
  isClosed 7%nat (world r) = true.
Proof.
  assert (H0 : 0 < KeepAlive (config (tun (freshWorld sampleConfig))))
    by reflexivity.
  assert (Hps : Forall (fun q => probeOK (KeepAlive (config (tun (freshWorld sampleConfig)))) q = true)
                  [samplePong 1000; samplePong 2000])
    by (repeat constructor).
  assert (Hs : silentFor (KeepAlive (config (tun (freshWorld sampleConfig)))) sampleSilent)
    by exact I.
  pose proof (keepAliveLoop_timeout 7%nat [samplePong 1000; samplePong 2000]
                sampleSilent [samplePong 5] (freshWorld sampleConfig) H0 Hps Hs)
    as (H1 & _ & H3 & _ & _ & _ & H7 & _).
  split; [exact H1 | split; [exact H3 | exact H7]].
Defined.

Lemma strange_payload_sends_error p :
  reply_err p = None ->
  reply_payload p <> "" ->
  reply_payload p <> "pong" ->
  KeepAliveChan p = [strangePing].
Proof.
  intros He Hne Hnp. unfold KeepAliveChan. rewrite He.
  apply String.eqb_neq in Hnp. rewrite Hnp.
  destruct (reply_payload p); [congruence|]. reflexivity.
Qed.

Lemma strange_payload_fails K q :
  reply_payload q <> "" ->
  reply_payload q <> "pong" ->
  probeOK K q = false.
Proof.
  intros Hne Hnp.
  assert (Hch : chanRecv (KeepAliveChan q) <> None).
  { unfold KeepAliveChan. apply String.eqb_neq in Hnp. rewrite Hnp.
    destruct (reply_payload q); [congruence|].
    destruct (reply_err q); discriminate. }
  unfold probeOK, keepAliveSelect.
  destruct (reply_after q) as [d|]; [|reflexivity].
  destruct (d <? K).
  - destruct (chanRecv (KeepAliveChan q)); [reflexivity|congruence].
  - destruct ((d =? K) && negb (timer_first q)); [|reflexivity].
    destruct (chanRecv (KeepAliveChan q)); [reflexivity|congruence].
Qed.

(** C6: a reply whose payload is neither empty nor "pong" makes the
    probe deliver the error "strange ping response" although the request
    itself reported none; a probe with such a payload never counts as a
    success; and whatever way a probe fails (timer, request error,
    strange payload), the loop sends no further ping, closes the
    connection and returns. *)
Theorem keepalive_failure_is_terminal c ps p rest w d
  (Hps : Forall (fun q => probeOK (KeepAlive (config (tun w))) q = true) ps)
  (Hreply : reply_after p = Some d)
  (Hintime : d < KeepAlive (config (tun w)))
  (Hnoerr : reply_err p = None)
  (Hnonempty : reply_payload p <> "")
  (Hnotpong : reply_payload p <> "pong") :
  let K := KeepAlive (config (tun w)) in
  KeepAliveChan p = [strangePing] /\
  keepAliveSelect K p = ChanCase d (Some strangePing) /\
  keepAliveLoop c (ps ++ p :: rest) w =
    mkResult (Returned tt) (markClosed c w)
      (flat_map (pingTrace K c) ps ++
       [Sleep K; Go (GoPing c); SendRequest c "ping" true;
        ChanRecv d (Some strangePing); ConnClose c]) /\
  (forall q, reply_payload q <> "" -> reply_payload q <> "pong" ->
     probeOK K q = false) /\
  (forall q, probeOK K q = false ->
     let r := keepAliveLoop c (ps ++ q :: rest) w in
     out r = Returned tt /\
     trace r = flat_map (pingTrace K c) ps ++ pingTrace K c q ++ [ConnClose c] /\
     List.length (filter isPing (trace r)) = S (List.length ps) /\
     isClosed c (world r) = true).
Proof.
  intros K.
  pose proof (strange_payload_sends_error p Hnoerr Hnonempty Hnotpong) as Hch.
  assert (Hsel : keepAliveSelect K p = ChanCase d (Some strangePing)).
  { unfold keepAliveSelect. rewrite Hreply, Hch.
    apply Z.ltb_lt in Hintime. fold K in Hintime. rewrite Hintime. reflexivity. }
  split; [exact Hch|]. split; [exact Hsel|].
  split.
  { assert (Hp : probeOK K p = false) by (unfold probeOK; rewrite Hsel; reflexivity).
    rewrite (keepAliveLoop_first_failure c ps p rest w Hps Hp).
    fold K. unfold pingTrace. rewrite Hsel. reflexivity. }
  split; [intros q; apply strange_payload_fails|].
  intros q Hq r. subst r.
  rewrite (keepAliveLoop_first_failure c ps q rest w Hps Hq). fold K.
  cbn [out world trace].
  split; [reflexivity|]. split; [reflexivity|].
  split; [|apply markClosed_isClosed].
  rewrite !filter_app, !length_app, count_pings.
  unfold pingTrace. cbn. destruct (keepAliveSelect K q); cbn; lia.
Qed.

Lemma keepalive_failure_is_terminal_witness :
  keepAliveLoop 7%nat
    ([samplePong 1; samplePong 1; samplePong 1] ++ sampleBad 1 :: [samplePong 1])
    (freshWorld sampleConfig) =
  mkResult (Returned tt) (markClosed 7%nat (freshWorld sampleConfig))
    (flat_map (pingTrace (30 * Second) 7%nat)
       [samplePong 1; samplePong 1; samplePong 1] ++
     [Sleep (30 * Second); Go (GoPing 7%nat); SendRequest 7%nat "ping" true;
      ChanRecv 1 (Some strangePing); ConnClose 7%nat]).
Proof.
  assert (Hps : Forall (fun q => probeOK (KeepAlive (config (tun (freshWorld sampleConfig)))) q = true)
                  [samplePong 1; samplePong 1; samplePong 1])
    by (repeat constructor).
  assert (Hne : reply_payload (sampleBad 1) <> "") by discriminate.
  assert (Hnp : reply_payload (sampleBad 1) <> "pong") by discriminate.
  assert (Hlt : 1 < KeepAlive (config (tun (freshWorld sampleConfig))))
    by reflexivity.
  exact (proj1 (proj2 (proj2
    (keepalive_failure_is_terminal 7%nat
       [samplePong 1; samplePong 1; samplePong 1] (sampleBad 1) [samplePong 1]
       (freshWorld sampleConfig) 1 Hps eq_refl Hlt eq_refl Hne Hnp)))).
Defined.

Lemma emptyReply_ok K p : emptyReply K p -> probeOK K p = true.
Proof.
  intros ((d & Hd & Hlt) & He & Hp).
  unfold probeOK, keepAliveSelect, KeepAliveChan.
  rewrite Hd, He, Hp. apply Z.ltb_lt in Hlt. rewrite Hlt. reflexivity.
Qed.

(** C10: a reply with an empty payload and no request error makes the
    probe send nothing before it closes its channel, so the loop receives
    nil; arriving within the interval, it keeps the monitor running: the
    loop goes on to the next sleep, and as long as the replies are such
    the monitor does not return and the connection is not closed. *)
Theorem keepalive_empty_reply_is_success c p rest w d
  (Hreply : reply_after p = Some d)
  (Hintime : d < KeepAlive (config (tun w)))
  (Hnoerr : reply_err p = None)
  (Hempty : reply_payload p = "") :
  let K := KeepAlive (config (tun w)) in
  KeepAliveChan p = [] /\
  chanRecv (KeepAliveChan p) = None /\
  keepAliveSelect K p = ChanCase d None /\
  pingForever K c (p :: rest) w =
    mkResult (out (pingForever K c rest w)) (world (pingForever K c rest w))
      ([Sleep K; Go (GoPing c); SendRequest c "ping" true; ChanRecv d None] ++
       trace (pingForever K c rest w)) /\
  (forall ps, Forall (emptyReply K) ps ->
     let r := keepAliveLoop c (p :: ps) w in
     out r = Blocked /\
     world r = w /\
     ~ In (ConnClose c) (trace r) /\
     List.length (filter isPing (trace r)) = S (List.length ps)).
Proof.
  intros K.
  assert (Hch : KeepAliveChan p = []).
  { unfold KeepAliveChan. rewrite Hnoerr, Hempty. reflexivity. }
  assert (Hsel : keepAliveSelect K p = ChanCase d None).
  { unfold keepAliveSelect. rewrite Hreply, Hch.
    apply Z.ltb_lt in Hintime. fold K in Hintime. rewrite Hintime. reflexivity. }
  assert (Hp : probeOK K p = true) by (unfold probeOK; rewrite Hsel; reflexivity).
  split; [exact Hch|]. split; [rewrite Hch; reflexivity|]. split; [exact Hsel|].
  split.
  { rewrite (pingForever_ok K c p rest w Hp). unfold pingTrace. rewrite Hsel.
    reflexivity. }
  intros ps Hps r. subst r.
  assert (Hall : Forall (fun q => probeOK (KeepAlive (config (tun w))) q = true) (p :: ps)).
  { constructor; [exact Hp|].
    eapply Forall_impl; [|exact Hps]. intros q Hq. apply emptyReply_ok. exact Hq. }
  rewrite (keepAliveLoop_alive c (p :: ps) w Hall). fold K. cbn [out world trace].
  split; [reflexivity|]. split; [reflexivity|].
  split; [|rewrite count_pings; reflexivity].
  intros Hin. apply in_flat_map in Hin as (q & _ & Hin).
  unfold pingTrace in Hin. cbn in Hin.
  destruct (keepAliveSelect K q); intuition discriminate.
Qed.

Lemma keepalive_empty_reply_is_success_witness :
  let r := keepAliveLoop 7%nat [sampleEmpty 10; sampleEmpty 20]
             (freshWorld sampleConfig) in
  out r = Blocked /\ world r = freshWorld sampleConfig /\
  ~ In (ConnClose 7%nat) (trace r).
Proof.
  assert (Hlt : 10 < KeepAlive (config (tun (freshWorld sampleConfig))))
    by reflexivity.
  assert (Hps : Forall (emptyReply (KeepAlive (config (tun (freshWorld sampleConfig)))))
                  [sampleEmpty 20]).
  { constructor; [|constructor].
    split; [exists 20; split; reflexivity | split; reflexivity]. }
  destruct (keepalive_empty_reply_is_success 7%nat (sampleEmpty 10) []
              (freshWorld sampleConfig) 10 eq_refl Hlt eq_refl eq_refl)
    as (_ & _ & _ & _ & H).
  destruct (H [sampleEmpty 20] Hps) as (H1 & H2 & H3 & _).
  split; [exact H1 | split; [exact H2 | exact H3]].
Defined.

(** ** BindRemotes *)

Lemma bind_returned {A B} (m : M A) (f : A -> M B) w a w1 t1 :
  m w = mkResult (Returned a) w1 t1 ->
  bind m f w =
  mkResult (out (f a w1)) (world (f a w1)) (t1 ++ trace (f a w1)).
Proof. unfold bind. intros ->. destruct (f a w1). reflexivity. Qed.

Lemma bind_blocked {A B} (m : M A) (f : A -> M B) w w1 t1 :
  m w = mkResult Blocked w1 t1 ->
  bind m f w = mkResult Blocked w1 t1.
Proof. unfold bind. intros ->. reflexivity. Qed.

Lemma wrapInt_id x : minInt <= x <= maxInt -> wrapInt x = x.
Proof.
  unfold wrapInt, minInt, maxInt.
  change (2 ^ 63) with 9223372036854775808.
  change (2 ^ 64) with 18446744073709551616.
  intros H. rewrite Z.mod_small; lia.
Qed.

Lemma wrapInt_overflows : wrapInt (maxInt + 1) = minInt.
Proof. reflexivity. Qed.

Lemma step_proxyCount a w :
  proxyCount (tun (step a w)) =
  if isInc a then wrapInt (proxyCount (tun w) + 1) else proxyCount (tun w).
Proof.
  destruct a; cbn; try reflexivity.
  - rewrite markClosed_tun. reflexivity.
  - rewrite markClosed_tun. reflexivity.
  - destruct (isDone ctx w); reflexivity.
Qed.

Lemma incsIn_cons a tr :
  incsIn (a :: tr) = (if isInc a then 1 else 0) + incsIn tr.
Proof. unfold incsIn. cbn. destruct (isInc a); cbn [List.length]; lia. Qed.

Lemma incsIn_app tr1 tr2 : incsIn (tr1 ++ tr2) = incsIn tr1 + incsIn tr2.
Proof. unfold incsIn. rewrite filter_app, length_app. lia. Qed.

Lemma incsIn_nonneg tr : 0 <= incsIn tr.
Proof. unfold incsIn. lia. Qed.

Lemma replay_proxyCount tr : forall w,
  minInt <= proxyCount (tun w) ->
  proxyCount (tun w) + incsIn tr <= maxInt ->
  proxyCount (tun (replay tr w)) = proxyCount (tun w) + incsIn tr.
Proof.
  induction tr as [|a tr IH]; intros w Hlo Hhi.
  - cbn. unfold incsIn. cbn. lia.
  - rewrite incsIn_cons in *. pose proof (incsIn_nonneg tr) as Hn.
    change (replay (a :: tr) w) with (replay tr (step a w)).
    pose proof (step_proxyCount a w) as Hs.
    destruct (isInc a).
    + rewrite wrapInt_id in Hs by lia. rewrite IH; lia.
    + rewrite IH; lia.
Qed.

Lemma unitReturns_running gctx k r g w :
  isRunning k g = true ->
  unitReturns gctx k r g w =
  mkResult (Returned (afterReturn k r g))
    (if cancels r g then step (Cancel gctx) w else w)
    (ProxyReturned k r :: if cancels r g then [Cancel gctx] else []).
Proof.
  intros H. unfold unitReturns, afterReturn, cancels. rewrite H.
  unfold bind, act, ret.
  destruct r as [e|]; destruct (g_err g) as [e0|] eqn:E; cbn;
    rewrite ?E; reflexivity.
Qed.

Lemma unitReturns_stranger gctx k r g w :
  isRunning k g = false ->
  unitReturns gctx k r g w = mkResult (Returned g) w [].
Proof. intros H. unfold unitReturns. rewrite H. reflexivity. Qed.

Lemma groupWait_drained gctx sched g w :
  g_running g = [] ->
  groupWait gctx sched g w =
  mkResult (Returned (g_err g)) (step (Cancel gctx) w) [Cancel gctx].
Proof. intros H. destruct sched as [|[k r] rest]; cbn; rewrite H; reflexivity. Qed.

Lemma groupWait_next gctx k r rest g w :
  g_running g <> [] ->
  groupWait gctx ((k, r) :: rest) g w =
  bind (unitReturns gctx k r g) (groupWait gctx rest) w.
Proof.
  intros H. cbn [groupWait]. destruct (g_running g); [congruence|reflexivity].
Qed.

Lemma isRunning_In k g : isRunning k g = true <-> In k (g_running g).
Proof.
  unfold isRunning. rewrite existsb_exists. split.
  - intros (j & Hj & E). apply Nat.eqb_eq in E. subst. exact Hj.
  - intros H. exists k. split; [exact H|apply Nat.eqb_refl].
Qed.

Lemma In_afterReturn j k r g :
  In j (g_running (afterReturn k r g)) <-> In j (g_running g) /\ j <> k.
Proof.
  unfold afterReturn. cbn. rewrite filter_In. split.
  - intros [H E]. split; [exact H|]. intros ->.
    rewrite Nat.eqb_refl in E. discriminate.
  - intros [H E]. split; [exact H|].
    destruct (Nat.eqb k j) eqn:E'; [apply Nat.eqb_eq in E'; congruence|reflexivity].
Qed.

Lemma step_Cancel_isDone ctx w : isDone ctx (step (Cancel ctx) w) = true.
Proof.
  cbn. destruct (isDone ctx w) eqn:E; [exact E|].
  unfold isDone. cbn. rewrite Nat.eqb_refl. reflexivity.
Qed.

(** [Wait] with every running unit returning exactly once. *)
Lemma groupWait_complete gctx sched : forall g w,
  NoDup (map fst sched) ->
  (forall k, In k (g_running g) <-> In k (map fst sched)) ->
  out (groupWait gctx sched g w) =
    Returned (match g_err g with Some e => Some e | None => firstErr sched end) /\
  trace (groupWait gctx sched g w) =
    waitTrace gctx (hasFailed g) sched ++ [Cancel gctx] /\
  isDone gctx (world (groupWait gctx sched g w)) = true.
Proof.
  induction sched as [|[k r] rest IH]; intros g w Hnd Hrun.
  - assert (Hnil : g_running g = []).
    { destruct (g_running g) as [|j l]; [reflexivity|].
      exfalso. apply (proj1 (Hrun j)). left. reflexivity. }
    rewrite (groupWait_drained gctx [] g w Hnil). cbn [out world trace].
    split; [destruct (g_err g); reflexivity|].
    split; [reflexivity|apply step_Cancel_isDone].
  - assert (Hk : In k (g_running g)) by (apply Hrun; left; reflexivity).
    assert (Hne : g_running g <> []) by (intros E; rewrite E in Hk; exact Hk).
    rewrite (groupWait_next gctx k r rest g w Hne).
    rewrite (bind_returned _ _ w _ _ _
               (unitReturns_running gctx k r g w (proj2 (isRunning_In k g) Hk))).
    cbn [out world trace].
    cbn [map fst] in Hnd. apply NoDup_cons_iff in Hnd as [Hnotin Hnd].
    assert (Hrun' : forall j, In j (g_running (afterReturn k r g)) <->
                              In j (map fst rest)).
    { intros j. rewrite In_afterReturn. split.
      - intros [Hj Hjk]. apply Hrun in Hj. destruct Hj as [Hj|Hj]; [|exact Hj].
        cbn in Hj. congruence.
      - intros Hj. split; [apply Hrun; right; exact Hj|].
        intros ->. exact (Hnotin Hj). }
    destruct (IH (afterReturn k r g)
                (if cancels r g then step (Cancel gctx) w else w) Hnd Hrun')
      as (Hout & Htr & Hdone).
    rewrite Hout, Htr.
    split; [|split; [|exact Hdone]].
    + unfold afterReturn. cbn [g_err firstErr].
      destruct (g_err g) as [e0|]; [reflexivity|]. destruct r; reflexivity.
    + unfold afterReturn, hasFailed, cancels. cbn [g_err waitTrace].
      destruct (g_err g) as [e0|]; destruct r as [e|]; reflexivity.
Qed.

(** [Wait] while some running unit never returns. *)
Lemma groupWait_blocks gctx sched : forall g w k,
  In k (g_running g) ->
  ~ In k (map fst sched) ->
  out (groupWait gctx sched g w) = Blocked.
Proof.
  induction sched as [|[j r] rest IH]; intros g w k Hk Hnot.
  - cbn. destruct (g_running g); [contradiction|reflexivity].
  - assert (Hne : g_running g <> []) by (intros E; rewrite E in Hk; exact Hk).
    rewrite (groupWait_next gctx j r rest g w Hne).
    assert (Hjk : k <> j) by (intros ->; apply Hnot; left; reflexivity).
    assert (Hrest : ~ In k (map fst rest)) by (intros H; apply Hnot; right; exact H).
    destruct (isRunning j g) eqn:Ej.
    + rewrite (bind_returned _ _ w _ _ _ (unitReturns_running gctx j r g w Ej)).
      cbn [out]. apply (IH _ _ k); [|exact Hrest].
      apply In_afterReturn. split; assumption.
    + rewrite (bind_returned _ _ w _ _ _ (unitReturns_stranger gctx j r g w Ej)).
      cbn [out]. apply (IH _ _ k); assumption.
Qed.

Lemma groupWait_tun gctx sched : forall g w,
  tun (world (groupWait gctx sched g w)) = tun w.
Proof.
  induction sched as [|[j r] rest IH]; intros g w.
  - cbn. destruct (g_running g); cbn; [|reflexivity].
    destruct (isDone gctx w); reflexivity.
  - destruct (g_running g) as [|x l] eqn:E.
    + rewrite (groupWait_drained gctx _ g w E). cbn.
      destruct (isDone gctx w); reflexivity.
    + assert (Hne : g_running g <> []) by (rewrite E; discriminate).
      rewrite (groupWait_next gctx j r rest g w Hne).
      destruct (isRunning j g) eqn:Ej.
      * rewrite (bind_returned _ _ w _ _ _ (unitReturns_running gctx j r g w Ej)).
        cbn [world]. rewrite IH.
        destruct (cancels r g); [|reflexivity].
        cbn. destruct (isDone gctx w); reflexivity.
      * rewrite (bind_returned _ _ w _ _ _ (unitReturns_stranger gctx j r g w Ej)).
        cbn [world]. apply IH.
Qed.

Lemma firstErr_none sched :
  firstErr sched = None <-> Forall (fun kr => snd kr = None) sched.
Proof.
  induction sched as [|[k [e|]] rest IH]; cbn.
  - split; [constructor|reflexivity].
  - split; [discriminate|]. intros H. inversion H; subst. discriminate.
  - rewrite IH. split.
    + intros H. constructor; [reflexivity|exact H].
    + intros H. inversion H; subst. assumption.
Qed.

Lemma waitTrace_after_failure gctx sched :
  waitTrace gctx true sched = map returned sched.
Proof.
  induction sched as [|[k [e|]] rest IH]; cbn; [reflexivity| |];
    rewrite IH; reflexivity.
Qed.

(** The first error in the order of return is the one reported, and the
    context is cancelled as soon as it is returned, before any later
    unit returns. *)
Lemma first_failure_cancels gctx pre k e post :
  Forall (fun kr => snd kr = None) pre ->
  firstErr (pre ++ (k, Some e) :: post) = Some e /\
  waitTrace gctx false (pre ++ (k, Some e) :: post) =
    map returned pre ++
    [ProxyReturned k (Some e); Cancel gctx] ++ map returned post.
Proof.
  induction 1 as [|[j r] pre Hr _ [IH1 IH2]]; cbn.
  - rewrite waitTrace_after_failure. split; reflexivity.
  - cbn in Hr. subst r. rewrite IH1, IH2. split; reflexivity.
Qed.

Lemma startAll_spec {Proxy : Type} gctx (proxies : list Proxy) : forall k g w,
  startAll gctx k proxies g w =
  mkResult
    (Returned {| g_err := g_err g;
                 g_running := g_running g ++ seq k (List.length proxies) |})
    w
    (map (fun j => Go (GoProxyRun j gctx)) (seq k (List.length proxies))).
Proof.
  induction proxies as [|p rest IH]; intros k g w.
  - cbn. rewrite app_nil_r. destruct g; reflexivity.
  - cbn [startAll]. unfold groupGo at 1.
    unfold bind at 1. unfold bind at 1. unfold act, ret.
    cbn [step]. rewrite IH. cbn. rewrite <- app_assoc. reflexivity.
Qed.

Section RemotesProps.

Context {Remote Proxy : Type}.
Variable NewProxy : Z -> Remote -> Proxy + error.

Lemma buildProxies_cons remote rest w :
  buildProxies NewProxy (remote :: rest) w =
  match NewProxy (proxyCount (tun w)) remote with
  | inr err =>
      mkResult (Returned (inr err)) w [NewProxyCall (proxyCount (tun w))]
  | inl p =>
      let r := buildProxies NewProxy rest (step ProxyCountInc w) in
      mkResult
        (match out r with
         | Returned (inl l) => Returned (inl (p :: l))
         | Returned (inr err) => Returned (inr err)
         | Panicked msg => Panicked msg
         | Blocked => Blocked
         end)
        (world r)
        (NewProxyCall (proxyCount (tun w)) :: ProxyCountInc :: trace r)
  end.
Proof.
  cbn [buildProxies]. unfold bind, get, act, ret. cbn beta iota zeta.
  change (step (NewProxyCall (proxyCount (tun w))) w) with w.
  destruct (NewProxy (proxyCount (tun w)) remote) as [p|err]; [|reflexivity].
  cbn beta iota zeta.
  destruct (buildProxies NewProxy rest (step ProxyCountInc w))
    as [[[l|err]|msg|] w' t]; cbn; rewrite ?app_nil_r; reflexivity.
Qed.

(** The first loop only touches [proxyCount]. *)
Lemma buildProxies_frame remotes : forall w,
  let r := buildProxies NewProxy remotes w in
  config (tun (world r)) = config (tun w) /\
  activeConn (tun (world r)) = activeConn (tun w) /\
  activatingConn (tun (world r)) = activatingConn (tun w) /\
  closed (world r) = closed w /\
  cancelled (world r) = cancelled w /\
  exists res, out r = Returned res.
Proof.
  induction remotes as [|remote rest IH]; intros w.
  - cbn. repeat split. eexists. reflexivity.
  - cbv zeta. rewrite buildProxies_cons.
    destruct (NewProxy (proxyCount (tun w)) remote) as [p|err].
    + cbv zeta. cbn [out world trace].
      destruct (IH (step ProxyCountInc w)) as (H1 & H2 & H3 & H4 & H5 & res & H6).
      rewrite H1, H2, H3, H4, H5, H6.
      repeat split. destruct res; eexists; reflexivity.
    + cbn. repeat split. eexists. reflexivity.
Qed.

(** The first loop, while [proxyCount] stays within [int]: the proxy
    built for the i-th remote gets the count at that moment as its
    index, and the count goes up by one for each proxy built. *)
Lemma buildProxies_spec remotes : forall w,
  minInt <= proxyCount (tun w) ->
  proxyCount (tun w) + Z.of_nat (List.length remotes) <= maxInt ->
  let r := buildProxies NewProxy remotes w in
  trace r = buildTrace NewProxy (proxyCount (tun w)) remotes /\
  proxyCount (tun (world r)) =
    proxyCount (tun w) + Z.of_nat (built NewProxy (proxyCount (tun w)) remotes) /\
  (built NewProxy (proxyCount (tun w)) remotes <= List.length remotes)%nat /\
  match out r with
  | Returned (inl proxies) =>
      List.length proxies = List.length remotes /\
      built NewProxy (proxyCount (tun w)) remotes = List.length remotes
  | Returned (inr _) =>
      (built NewProxy (proxyCount (tun w)) remotes < List.length remotes)%nat
  | Panicked _ | Blocked => False
  end.
Proof.
  induction remotes as [|remote rest IH]; intros w Hlo Hhi.
  - cbn. repeat split; lia.
  - cbv zeta. rewrite buildProxies_cons. cbn [buildTrace built].
    cbn [List.length] in Hhi.
    destruct (NewProxy (proxyCount (tun w)) remote) as [p|err].
    + cbv zeta. cbn [out world trace].
      assert (Hpc : proxyCount (tun (step ProxyCountInc w)) = proxyCount (tun w) + 1).
      { cbn. apply wrapInt_id. lia. }
      destruct (IH (step ProxyCountInc w)) as (H1 & H2 & H3 & H4);
        [lia | lia |].
      rewrite Hpc in *. rewrite H1, H2.
      split; [reflexivity|]. split; [lia|]. split; [cbn; lia|].
      destruct (out (buildProxies NewProxy rest (step ProxyCountInc w)))
        as [[l|e]| |]; cbn [List.length]; try lia; try contradiction.
    + cbn. repeat split; lia.
Qed.

Lemma BindRemotes_inbound_blocked ctx gctx remote rest sched w :
  Inbound (config (tun w)) = false ->
  BindRemotes NewProxy ctx gctx (remote :: rest) sched w =
  mkResult (Returned (Some "inbound connections blocked")) w [].
Proof.
  intros Hin. unfold BindRemotes.
  cbn [List.length Nat.eqb]. unfold bind at 1. unfold get.
  cbn match. rewrite Hin. reflexivity.
Qed.

(** C5: with no remotes, and likewise when inbound proxies are not
    allowed, [BindRemotes] returns an error having done nothing: no
    proxy is built, no unit is started, the tunnel is as before. *)
Theorem BindRemotes_rejects ctx gctx sched w :
  BindRemotes NewProxy ctx gctx [] sched w =
    mkResult (Returned (Some "no remotes")) w [] /\
  (forall remotes,
     Inbound (config (tun w)) = false ->
     exists err,
       BindRemotes NewProxy ctx gctx remotes sched w =
         mkResult (Returned (Some err)) w [] /\
       (remotes <> [] -> err = "inbound connections blocked")).
Proof.
  split; [reflexivity|].
  intros remotes Hin. unfold BindRemotes.
  destruct remotes as [|remote rest].
  - eexists. split; [reflexivity|congruence].
  - cbn [List.length Nat.eqb]. unfold bind at 1. unfold get.
    cbn match. rewrite Hin. cbn.
    eexists. split; reflexivity.
Qed.

End RemotesProps.

Lemma BindRemotes_rejects_witness :
  BindRemotes sampleNewProxy 1%nat 2%nat [8080; 8443] [(0%nat, None)]
    (mkWorld (New (mkConfig false true false 0)) [] []) =
  mkResult (Returned (Some "inbound connections blocked"))
    (mkWorld (New (mkConfig false true false 0)) [] []) [].
Proof.
  destruct (proj2 (BindRemotes_rejects sampleNewProxy 1%nat 2%nat [(0%nat, None)]
                     (mkWorld (New (mkConfig false true false 0)) [] []))
              [8080; 8443] eq_refl) as (err & H & Herr).
  rewrite H. rewrite Herr by discriminate. reflexivity.
Defined.

(** ** What the calls do to proxyCount *)

Lemma BindSSH_proxyCount ctx c shutdown w :
  proxyCount (tun (world (BindSSH ctx c shutdown w))) = proxyCount (tun w).
Proof.
  unfold BindSSH, bind, act, get, connWait, when, panic, block. cbn.
  destruct (activeConn (tun w)); [reflexivity|].
  destruct (0 <? KeepAlive (config (tun w))); destruct shutdown; cbn;
    rewrite ?markClosed_tun; reflexivity.
Qed.

Lemma ctxWatch_proxyCount c w :
  proxyCount (tun (world (ctxWatch c w))) = proxyCount (tun w).
Proof.
  unfold ctxWatch, connClose, bind, act, get, ret. cbn.
  rewrite markClosed_tun. reflexivity.
Qed.

Lemma pingForever_world K c env : forall w,
  world (pingForever K c env w) = w.
Proof.
  induction env as [|p rest IH]; intros w; [reflexivity|].
  destruct (probeOK K p) eqn:E.
  - rewrite (pingForever_ok K c p rest w E). cbn. apply IH.
  - rewrite (pingForever_fails K c p rest w E). reflexivity.
Qed.

Lemma keepAliveLoop_proxyCount c env w :
  proxyCount (tun (world (keepAliveLoop c env w))) = proxyCount (tun w).
Proof.
  unfold keepAliveLoop, bind, get. cbn.
  pose proof (pingForever_world (KeepAlive (config (tun w))) c env w) as Hw.
  destruct (pingForever (KeepAlive (config (tun w))) c env w)
    as [[[]|msg|] w1 t1]; cbn in Hw; subst w1; cbn;
    rewrite ?markClosed_tun; reflexivity.
Qed.

Lemma getSSH_world env tf lag ctx w future :
  exists pre post,
    future = pre ++ post /\
    got_world (getSSH env tf lag ctx w future) = replay (map snd pre) w.
Proof.
  unfold getSSH. destruct (isDone ctx w).
  { exists [], future. split; reflexivity. }
  destruct (activeConn (tun w)).
  { exists [], future. split; reflexivity. }
  apply awaitSelect_world.
Qed.

Lemma getSSH_proxyCount env tf lag ctx w future :
  minInt <= proxyCount (tun w) ->
  proxyCount (tun w) + incsIn (map snd future) <= maxInt ->
  proxyCount (tun w) <= proxyCount (tun (got_world (getSSH env tf lag ctx w future)))
    <= proxyCount (tun w) + incsIn (map snd future).
Proof.
  intros Hlo Hhi.
  destruct (getSSH_world env tf lag ctx w future) as (pre & post & Hfut & Hw).
  rewrite Hw. rewrite Hfut, map_app, incsIn_app in *.
  pose proof (incsIn_nonneg (map snd pre)).
  pose proof (incsIn_nonneg (map snd post)).
  rewrite replay_proxyCount; lia.
Qed.

Lemma Close_proxyCount env tf lag ctx future w :
  proxyCount (tun (world (Close env tf lag ctx future w))) =
  proxyCount (tun (got_world (getSSH env tf lag ctx w future))).
Proof.
  rewrite Close_eq.
  destruct (got_conn (getSSH env tf lag ctx w future)) as [c|]; [|reflexivity].
  unfold connClose, bind, get, act, ret. cbn.
  rewrite markClosed_tun. reflexivity.
Qed.

(** ** The fan-out and the proxy count *)

Section FanOut.

Context {Remote Proxy : Type}.
Variable NewProxy : Z -> Remote -> Proxy + error.

(** [BindRemotes] once both checks have passed. *)
Lemma BindRemotes_accepted ctx gctx remotes sched w :
  remotes <> [] ->
  Inbound (config (tun w)) = true ->
  BindRemotes NewProxy ctx gctx remotes sched w =
  match out (buildProxies NewProxy remotes w) with
  | Returned (inl proxies) =>
      let w1 := world (buildProxies NewProxy remotes w) in
      let r1 := groupWait gctx sched
                  (mkGroup None (seq 0 (List.length proxies))) w1 in
      mkResult (out r1) (world r1)
        (trace (buildProxies NewProxy remotes w) ++
         WithContext ctx gctx ::
         map (fun j => Go (GoProxyRun j gctx)) (seq 0 (List.length proxies)) ++
         trace r1)
  | Returned (inr err) =>
      mkResult (Returned (Some err)) (world (buildProxies NewProxy remotes w))
        (trace (buildProxies NewProxy remotes w))
  | Panicked msg =>
      mkResult (Panicked msg) (world (buildProxies NewProxy remotes w))
        (trace (buildProxies NewProxy remotes w))
  | Blocked =>
      mkResult Blocked (world (buildProxies NewProxy remotes w))
        (trace (buildProxies NewProxy remotes w))
  end.
Proof.
  intros Hsome Hin. unfold BindRemotes.
  destruct remotes as [|remote rest]; [congruence|].
  cbn [List.length Nat.eqb]. unfold bind at 1. unfold get. cbn match.
  rewrite Hin. cbn [negb]. cbn beta iota.
  unfold bind at 1.
  destruct (buildProxies NewProxy (remote :: rest) w) as [[[proxies|err]|msg|] w1 t1];
    cbn [out world trace]; try reflexivity.
  - unfold bind at 1. unfold act at 1. cbn beta iota.
    change (step (WithContext ctx gctx) w1) with w1.
    unfold bind at 1. rewrite startAll_spec. cbn [g_err g_running app].
    destruct (groupWait gctx sched
                {| g_err := None; g_running := seq 0 (List.length proxies) |} w1)
      as [o w2 t2].
    cbn. rewrite ?app_nil_r. reflexivity.
  - unfold ret. cbn. rewrite app_nil_r. reflexivity.
Qed.

(** C4: with the proxies built, [BindRemotes] starts every one of them,
    in order, under the one context derived by the group.  Whatever the
    order in which the units return, it reports the first error
    returned, and nil exactly when every unit returned nil; the context
    is cancelled right after the first error is returned, before any
    later unit returns; and as long as some unit has not returned,
    [BindRemotes] does not return. *)
Theorem BindRemotes_fail_fast ctx gctx remotes proxies sched w
  (Hsome : remotes <> [])
  (Hin : Inbound (config (tun w)) = true)
  (Hbuilt : out (buildProxies NewProxy remotes w) = Returned (inl proxies))
  (Hsched : completeFor (List.length proxies) sched) :
  let r := BindRemotes NewProxy ctx gctx remotes sched w in
  out r = Returned (firstErr sched) /\
  trace r =
    trace (buildProxies NewProxy remotes w) ++
    WithContext ctx gctx ::
    map (fun j => Go (GoProxyRun j gctx)) (seq 0 (List.length proxies)) ++
    waitTrace gctx false sched ++ [Cancel gctx] /\
  isDone gctx (world r) = true /\
  (firstErr sched = None <-> Forall (fun kr => snd kr = None) sched) /\
  (forall pre k e post,
     sched = pre ++ (k, Some e) :: post ->
     Forall (fun kr => snd kr = None) pre ->
     firstErr sched = Some e /\
     waitTrace gctx false sched =
       map returned pre ++
       [ProxyReturned k (Some e); Cancel gctx] ++ map returned post) /\
  (forall sched' k,
     (k < List.length proxies)%nat ->
     ~ In k (map fst sched') ->
     out (BindRemotes NewProxy ctx gctx remotes sched' w) = Blocked).
Proof.
  intros r. subst r.
  rewrite (BindRemotes_accepted ctx gctx remotes sched w Hsome Hin), Hbuilt.
  cbv zeta. cbn [out world trace].
  destruct Hsched as [Hnd Hcover].
  destruct (groupWait_complete gctx sched
              (mkGroup None (seq 0 (List.length proxies)))
              (world (buildProxies NewProxy remotes w)) Hnd)
    as (Hout & Htr & Hdone).
  { intros k. cbn [g_running]. rewrite in_seq, Hcover. lia. }
  cbn [g_err hasFailed] in Hout, Htr.
  split; [exact Hout|]. split; [rewrite Htr; reflexivity|].
  split; [exact Hdone|]. split; [apply firstErr_none|].
  split.
  { intros pre k e post -> Hpre. apply first_failure_cancels. exact Hpre. }
  intros sched' k Hk Hnot.
  rewrite (BindRemotes_accepted ctx gctx remotes sched' w Hsome Hin), Hbuilt.
  cbv zeta. cbn [out].
  apply (groupWait_blocks gctx sched' _ _ k); [|exact Hnot].
  cbn [g_running]. apply in_seq. lia.
Qed.

Lemma BindRemotes_proxyCount ctx gctx remotes sched w :
  minInt <= proxyCount (tun w) ->
  proxyCount (tun w) + Z.of_nat (List.length remotes) <= maxInt ->
  let r := BindRemotes NewProxy ctx gctx remotes sched w in
  (remotes = [] \/ Inbound (config (tun w)) = false ->
     proxyCount (tun (world r)) = proxyCount (tun w) /\ trace r = []) /\
  (remotes <> [] -> Inbound (config (tun w)) = true ->
     proxyCount (tun (world r)) =
       proxyCount (tun w) +
       Z.of_nat (built NewProxy (proxyCount (tun w)) remotes) /\
     exists rest,
       trace r = buildTrace NewProxy (proxyCount (tun w)) remotes ++ rest) /\
  proxyCount (tun w) <= proxyCount (tun (world r))
    <= proxyCount (tun w) + Z.of_nat (List.length remotes).
Proof.
  intros Hlo Hhi r.
  assert (Hrej : remotes = [] \/ Inbound (config (tun w)) = false ->
                 world r = w /\ trace r = []).
  { intros [->|Hin].
    - split; reflexivity.
    - subst r. destruct remotes as [|remote rest]; [split; reflexivity|].
      rewrite (BindRemotes_inbound_blocked NewProxy ctx gctx remote rest sched w Hin).
      split; reflexivity. }
  assert (Hacc : remotes <> [] -> Inbound (config (tun w)) = true ->
     proxyCount (tun (world r)) =
       proxyCount (tun w) +
       Z.of_nat (built NewProxy (proxyCount (tun w)) remotes) /\
     exists rest,
       trace r = buildTrace NewProxy (proxyCount (tun w)) remotes ++ rest).
  { intros Hsome Hin. subst r.
    rewrite (BindRemotes_accepted ctx gctx remotes sched w Hsome Hin).
    destruct (buildProxies_spec NewProxy remotes w Hlo Hhi) as (Htr & Hpc & _ & Hout).
    destruct (out (buildProxies NewProxy remotes w)) as [[proxies|err]|msg|];
      try contradiction.
    - cbv zeta. cbn [world trace]. rewrite groupWait_tun, Hpc, Htr.
      split; [reflexivity|]. eexists. reflexivity.
    - cbn [world trace]. rewrite Hpc, Htr.
      split; [reflexivity|]. exists []. rewrite app_nil_r. reflexivity. }
  split; [intros H; destruct (Hrej H) as [-> ->]; split; reflexivity|].
  split; [exact Hacc|].
  destruct remotes as [|remote rest].
  { destruct (Hrej (or_introl eq_refl)) as [-> _]. cbn. lia. }
  destruct (Inbound (config (tun w))) eqn:Hin.
  - destruct (Hacc ltac:(discriminate) eq_refl) as [-> _].
    destruct (buildProxies_spec NewProxy (remote :: rest) w Hlo Hhi)
      as (_ & _ & Hle & _).
    lia.
  - destruct (Hrej (or_intror eq_refl)) as [-> _]. lia.
Qed.

Lemma perform_proxyCount k w :
  minInt <= proxyCount (tun w) ->
  proxyCount (tun w) + incsOf k <= maxInt ->
  proxyCount (tun w) <= proxyCount (tun (perform NewProxy k w))
    <= proxyCount (tun w) + incsOf k.
Proof.
  intros Hlo Hhi. destruct k; cbn [perform incsOf] in *.
  - rewrite BindSSH_proxyCount. lia.
  - rewrite ctxWatch_proxyCount. lia.
  - apply getSSH_proxyCount; assumption.
  - rewrite Close_proxyCount. apply getSSH_proxyCount; assumption.
  - rewrite keepAliveLoop_proxyCount. lia.
  - apply BindRemotes_proxyCount; assumption.
Qed.

Lemma incsOf_nonneg (k : call Remote) : 0 <= incsOf k.
Proof. destruct k; cbn; try apply incsIn_nonneg; lia. Qed.

Lemma incsOfAll_cons (k : call Remote) calls :
  incsOfAll (k :: calls) = incsOf k + incsOfAll calls.
Proof. reflexivity. Qed.

Lemma incsOfAll_nonneg (calls : list (call Remote)) : 0 <= incsOfAll calls.
Proof.
  induction calls as [|k calls IH]; [cbn; lia|].
  rewrite incsOfAll_cons. pose proof (incsOf_nonneg k). lia.
Qed.

Lemma incsOfAll_app (l1 l2 : list (call Remote)) :
  incsOfAll (l1 ++ l2) = incsOfAll l1 + incsOfAll l2.
Proof.
  induction l1 as [|k l1 IH]; [reflexivity|].
  cbn [app]. rewrite !incsOfAll_cons, IH. lia.
Qed.

Lemma lifetime_proxyCount calls : forall w,
  minInt <= proxyCount (tun w) ->
  proxyCount (tun w) + incsOfAll calls <= maxInt ->
  proxyCount (tun w) <= proxyCount (tun (lifetime NewProxy calls w))
    <= proxyCount (tun w) + incsOfAll calls.
Proof.
  induction calls as [|k calls IH]; intros w Hlo Hhi.
  - cbn. lia.
  - rewrite incsOfAll_cons in *.
    change (lifetime NewProxy (k :: calls) w)
      with (lifetime NewProxy calls (perform NewProxy k w)).
    pose proof (incsOf_nonneg k). pose proof (incsOfAll_nonneg calls).
    pose proof (perform_proxyCount k w Hlo ltac:(lia)) as Hk.
    pose proof (IH (perform NewProxy k w) ltac:(lia) ltac:(lia)). lia.
Qed.

Lemma lifetime_app l1 l2 w :
  lifetime NewProxy (l1 ++ l2) w = lifetime NewProxy l2 (lifetime NewProxy l1 w).
Proof. unfold lifetime. apply fold_left_app. Qed.

(** C9: over any sequence of calls on a new tunnel that keeps the count
    within [int], [proxyCount] never goes down.  [BindSSH], its context
    goroutine and the keepalive loop leave it as it is; [BindRemotes]
    starts from the count the earlier calls left, hands the current count
    to [NewProxy] as the index of each proxy and adds one for each proxy
    built. *)
Theorem proxyCount_monotone (calls : list (call Remote)) cfg
  (Hroom : incsOfAll calls <= maxInt) :
  forall pre k post, calls = pre ++ k :: post ->
    let before := lifetime NewProxy pre (freshWorld cfg) in
    let after := lifetime NewProxy (pre ++ [k]) (freshWorld cfg) in
    0 <= proxyCount (tun before) /\
    proxyCount (tun before) <= proxyCount (tun after) /\
    match k with
    | CallBindRemotes ctx gctx remotes sched =>
        (remotes = [] \/ Inbound (config (tun before)) = false ->
           proxyCount (tun after) = proxyCount (tun before)) /\
        (remotes <> [] -> Inbound (config (tun before)) = true ->
           proxyCount (tun after) =
             proxyCount (tun before) +
             Z.of_nat (built NewProxy (proxyCount (tun before)) remotes) /\
           exists rest,
             trace (BindRemotes NewProxy ctx gctx remotes sched before) =
             buildTrace NewProxy (proxyCount (tun before)) remotes ++ rest)
    | CallBindSSH _ _ _ | CallCtxWatch _ | CallKeepAliveLoop _ _ =>
        proxyCount (tun after) = proxyCount (tun before)
    | CallGetSSH _ _ _ _ _ | CallClose _ _ _ _ _ => True
    end.
Proof.
  intros pre k post -> before after.
  rewrite !incsOfAll_app, incsOfAll_cons in Hroom.
  pose proof (incsOfAll_nonneg pre). pose proof (incsOfAll_nonneg post).
  pose proof (incsOf_nonneg k).
  assert (Hmin : minInt <= 0) by (unfold minInt; lia).
  pose proof (lifetime_proxyCount pre (freshWorld cfg)) as Hpre.
  cbn [freshWorld tun New proxyCount] in Hpre.
  specialize (Hpre Hmin ltac:(lia)). fold before in Hpre.
  assert (Hafter : after = perform NewProxy k before).
  { subst after before. rewrite lifetime_app. reflexivity. }
  pose proof (perform_proxyCount k before ltac:(lia) ltac:(lia)) as Hk.
  rewrite <- Hafter in Hk.
  split; [lia|]. split; [lia|].
  destruct k; cbn [perform] in Hafter; try exact I.
  - rewrite Hafter. apply BindSSH_proxyCount.
  - rewrite Hafter. apply ctxWatch_proxyCount.
  - rewrite Hafter. apply keepAliveLoop_proxyCount.
  - cbn [incsOf] in *.
    destruct (BindRemotes_proxyCount ctx gctx remotes sched before
                ltac:(lia) ltac:(lia)) as (Hrej & Hacc & _).
    rewrite Hafter. split.
    + intros Hno. apply (Hrej Hno).
    + exact Hacc.
Qed.

End FanOut.

Lemma BindRemotes_fail_fast_witness :
  let r := BindRemotes sampleNewProxy 1%nat 2%nat [8080; 8443; 9000]
             [(1%nat, None); (2%nat, Some "boom"); (0%nat, Some "late")]
             (freshWorld sampleConfig) in
  out r = Returned (Some "boom") /\ isDone 2%nat (world r) = true.
Proof.
  assert (Hsome : [8080; 8443; 9000] <> []) by discriminate.
  assert (Hsched : completeFor
            (List.length [(0, 8080); (1, 8443); (2, 9000)])
            [(1%nat, None); (2%nat, Some "boom"); (0%nat, Some "late")]).
  { split.
    - cbn. repeat constructor; cbn; intuition discriminate.
    - intros k. cbn. lia. }
  destruct (BindRemotes_fail_fast sampleNewProxy 1%nat 2%nat
              [8080; 8443; 9000] [(0, 8080); (1, 8443); (2, 9000)]
              [(1%nat, None); (2%nat, Some "boom"); (0%nat, Some "late")]
              (freshWorld sampleConfig) Hsome eq_refl eq_refl Hsched)
    as (Hout & _ & Hdone & _).
  split; [exact Hout | exact Hdone].
Defined.

Lemma proxyCount_monotone_witness :
  let before := lifetime sampleNewProxy (firstn 2 sampleCalls)
                  (freshWorld sampleConfig) in
  let after := lifetime sampleNewProxy sampleCalls (freshWorld sampleConfig) in
  proxyCount (tun before) = 1 /\
  proxyCount (tun before) <= proxyCount (tun after) /\
  proxyCount (tun after) = 3.
Proof.
  assert (Hroom : incsOfAll sampleCalls <= maxInt)
    by (apply Z.leb_le; reflexivity).
  destruct (proxyCount_monotone sampleNewProxy sampleCalls sampleConfig Hroom
              (firstn 2 sampleCalls)
              (CallBindRemotes 4%nat 5%nat [8443; 9443]
                 [(1%nat, Some "accept failed"); (0%nat, None)])
              [] eq_refl)
    as (_ & Hle & _).
  split; [reflexivity|]. split; [exact Hle | reflexivity].
Defined.

(** * Further properties *)

(** ** getSSH and Close at the edges *)

Lemma awaitSelect_asleep_head D tf lag ctx now w future :
  (D <=? now) = false ->
  asleep ctx w = true ->
  match future with
  | [] => True
  | (d, _) :: _ => D < d
  end ->
  awaitSelect D tf lag ctx now w future = mkGot None ByTimeout D w.
Proof.
  intros HD Hs Hhead. unfold asleep in Hs.
  apply andb_prop in Hs as [Hl Hg].
  apply negb_true_iff in Hl. apply negb_true_iff in Hg.
  destruct future as [|[d a] rest]; cbn [awaitSelect];
    rewrite HD, Hl, Hg; cbn [andb orb negb]; [reflexivity|].
  apply Z.ltb_lt in Hhead. rewrite Hhead. reflexivity.
Qed.

Lemma awaitSelect_timer_only D tf lag ctx now w future :
  (D <=? now) = true ->
  asleep ctx w = true ->
  awaitSelect D tf lag ctx now w future = mkGot None ByTimeout now w.
Proof.
  intros HD Hs. unfold asleep in Hs.
  apply andb_prop in Hs as [Hl Hg].
  apply negb_true_iff in Hl. apply negb_true_iff in Hg.
  destruct future as [|[d a] rest]; cbn [awaitSelect];
    rewrite HD, Hl, Hg; cbn [andb orb negb]; rewrite orb_true_r; reflexivity.
Qed.

(** X1: a caller with a live context, facing an empty slot and a pending
    gate, gives up at the readiness timeout with nil when nothing happens
    before it: whatever happens later (a connection being bound, say) is
    not waited for, and the world is as it was on entry. *)
Theorem getSSH_gives_up_at_deadline env timerFirst lag ctx w future
  (Hlive : isDone ctx w = false)
  (Hfree : activeConn (tun w) = None)
  (Hpending : gateOpen w = false)
  (Hlate : Forall (fun ev => sshWait env < fst ev) future) :
  getSSH env timerFirst lag ctx w future =
  mkGot None ByTimeout (Z.max 0 (sshWait env)) w.
Proof.
  unfold getSSH. rewrite Hlive, Hfree.
  assert (Hs : asleep ctx w = true).
  { unfold asleep. rewrite Hlive, Hpending. reflexivity. }
  destruct (sshWait env <=? 0) eqn:E.
  - rewrite (awaitSelect_timer_only _ _ _ _ _ _ _ E Hs).
    apply Z.leb_le in E. rewrite Z.max_l by lia. reflexivity.
  - rewrite (awaitSelect_asleep_head _ _ _ _ _ _ _ E Hs).
    + apply Z.leb_gt in E. rewrite Z.max_r by lia. reflexivity.
    + destruct future as [|[d a] rest]; [exact I|].
      inversion Hlate; subst. assumption.
Qed.

Lemma getSSH_gives_up_at_deadline_witness :
  getSSH (fun _ => None) false 0%nat 2%nat (freshWorld sampleConfig)
    (at_time (36 * Second) (bindTrace 1%nat 7%nat true)) =
  mkGot None ByTimeout (35 * Second) (freshWorld sampleConfig).
Proof.
  assert (Hlate : Forall (fun ev => sshWait (fun _ => None) < fst ev)
                    (at_time (36 * Second) (bindTrace 1%nat 7%nat true)))
    by (repeat constructor).
  exact (getSSH_gives_up_at_deadline (fun _ => None) false 0%nat 2%nat
           (freshWorld sampleConfig)
           (at_time (36 * Second) (bindTrace 1%nat 7%nat true))
           eq_refl eq_refl eq_refl Hlate).
Defined.

(** X2: with a cancelled context [Close] does nothing and reports
    success, also when a connection is bound and open: the connection is
    not closed. *)
Theorem Close_with_cancelled_context env timerFirst lag ctx future w
  (Hdone : isDone ctx w = true) :
  Close env timerFirst lag ctx future w = mkResult (Returned None) w [].
Proof.
  rewrite Close_eq. unfold getSSH. rewrite Hdone. reflexivity.
Qed.

Lemma Close_with_cancelled_context_witness :
  let w := step (Cancel 2%nat)
             (world (BindSSH 1%nat 7%nat None (freshWorld sampleConfig))) in
  activeConn (tun w) = Some 7%nat /\
  isClosed 7%nat w = false /\
  Close (fun _ => None) false 0%nat 2%nat [] w = mkResult (Returned None) w [].
Proof.
  split; [reflexivity|]. split; [reflexivity|].
  apply (Close_with_cancelled_context (fun _ => None) false 0%nat 2%nat []
           (step (Cancel 2%nat)
              (world (BindSSH 1%nat 7%nat None (freshWorld sampleConfig))))).
  reflexivity.
Defined.

(** X3: with a live context and a connection bound, [Close] acts at
    once, whatever the other goroutines are about to do: it closes that
    connection and no other, leaves the tunnel record alone, and reports
    an error exactly when the connection was closed already. *)
Theorem Close_of_bound_connection env timerFirst lag ctx future w c
  (Hlive : isDone ctx w = false)
  (Hbound : activeConn (tun w) = Some c) :
  let r := Close env timerFirst lag ctx future w in
  out r = Returned (if isClosed c w then Some errClosed else None) /\
  trace r = [ConnClose c] /\
  world r = markClosed c w /\
  tun (world r) = tun w /\
  cancelled (world r) = cancelled w /\
  isClosed c (world r) = true /\
  (forall c', c' <> c -> isClosed c' (world r) = isClosed c' w).
Proof.
  cbv zeta. rewrite Close_eq. unfold getSSH. rewrite Hlive, Hbound.
  cbn [got_conn got_world].
  unfold connClose, bind, get, act, ret. cbn.
  split; [reflexivity|]. split; [reflexivity|]. split; [reflexivity|].
  split; [apply markClosed_tun|].
  split; [unfold markClosed; destruct (isClosed c w); reflexivity|].
  split; [apply markClosed_isClosed|].
  intros c' Hc'. unfold markClosed. destruct (isClosed c w) eqn:E; [reflexivity|].
  unfold isClosed. cbn.
  destruct (Nat.eqb c' c) eqn:E'; [apply Nat.eqb_eq in E'; congruence|reflexivity].
Qed.

Lemma Close_of_bound_connection_witness :
  let w := world (BindSSH 1%nat 7%nat None (freshWorld sampleConfig)) in
  let r := Close (fun _ => None) false 0%nat 2%nat
             (at_time 1 [GateAdd 1; SetActive None]) w in
  out r = Returned None /\ isClosed 7%nat (world r) = true.
Proof.
  destruct (Close_of_bound_connection (fun _ => None) false 0%nat 2%nat
              (at_time 1 [GateAdd 1; SetActive None])
              (world (BindSSH 1%nat 7%nat None (freshWorld sampleConfig)))
              7%nat eq_refl eq_refl)
    as (Hout & _ & _ & _ & _ & Hclosed & _).
  split; [exact Hout | exact Hclosed].
Defined.

(** ** The goroutine linking ctx to the connection *)

Lemma awaitSelect_open_gate_now D tf lag ctx now w future :
  gateOpen w = true ->
  isDone ctx w = false ->
  got_at (awaitSelect D tf lag ctx now w future) = now.
Proof.
  intros Hopen Hlive.
  destruct future as [|[d a] rest]; cbn [awaitSelect];
    rewrite Hopen, Hlive; cbn [orb negb];
    destruct ((D <=? now) && (tf || false)); reflexivity.
Qed.

Lemma gate_stays_open a w :
  armsGate a = false -> gateOpen w = true -> gateOpen (step a w) = true.
Proof.
  unfold gateOpen, wg_pending. intros Ha Hopen.
  apply negb_true_iff in Hopen. apply negb_true_iff.
  destruct a; cbn [step setTun setGate tun activatingConn];
    rewrite ?markClosed_tun; try exact Hopen.
  - discriminate Ha.
  - unfold wg_Done. rewrite Hopen. exact Hopen.
  - unfold wg_DoneAll. rewrite Hopen. exact Hopen.
  - destruct (isDone ctx w); exact Hopen.
Qed.

Lemma gate_stays_open_replay tr : forall w,
  Forall (fun a => armsGate a = false) tr ->
  gateOpen w = true -> gateOpen (replay tr w) = true.
Proof.
  induction tr as [|a tr IH]; intros w Hall Hopen; [exact Hopen|].
  inversion Hall as [|? ? Ha Htr]; subst.
  change (replay (a :: tr) w) with (replay tr (step a w)).
  apply IH; [exact Htr|]. apply gate_stays_open; assumption.
Qed.

(** X4: once the context given to [BindSSH] is cancelled, its goroutine
    closes the connection and releases the gate, whatever the state, and
    leaves the slot as it is.  Until the gate is armed again, whatever
    else happens, a [getSSH] called on the tunnel spends no time
    blocked.  The [Add(1)] of a returning [BindSSH] ends this: it arms
    the gate again. *)
Theorem ctxWatch_releases_waiters c w :
  let w' := world (ctxWatch c w) in
  isClosed c w' = true /\
  gateOpen w' = true /\
  activeConn (tun w') = activeConn (tun w) /\
  proxyCount (tun w') = proxyCount (tun w) /\
  (forall tr, Forall (fun a => armsGate a = false) tr ->
     gateOpen (replay tr w') = true /\
     forall env timerFirst lag ctx future,
       got_at (getSSH env timerFirst lag ctx (replay tr w') future) = 0) /\
  (gateSane w -> gateOpen (step (GateAdd 1) w') = false).
Proof.
  cbv zeta.
  assert (Hw' : world (ctxWatch c w) = step GateDoneAll (markClosed c w)).
  { unfold ctxWatch, connClose, bind, get, act, ret. reflexivity. }
  rewrite Hw'.
  assert (Hclosed : isClosed c (step GateDoneAll (markClosed c w)) = true).
  { cbn. unfold isClosed. cbn. apply markClosed_isClosed. }
  assert (Hopen : gateOpen (step GateDoneAll (markClosed c w)) = true).
  { unfold gateOpen, wg_pending. cbn. rewrite markClosed_tun.
    unfold wg_DoneAll. destruct (0 <? wg_n (activatingConn (tun w))) eqn:E;
      cbn; [reflexivity|rewrite E; reflexivity]. }
  assert (Hact : activeConn (tun (step GateDoneAll (markClosed c w))) =
                 activeConn (tun w)).
  { cbn. rewrite markClosed_tun. reflexivity. }
  split; [exact Hclosed|]. split; [exact Hopen|]. split; [exact Hact|].
  split; [cbn; rewrite markClosed_tun; reflexivity|].
  split.
  - intros tr Htr.
    pose proof (gate_stays_open_replay tr _ Htr Hopen) as Hopen'.
    split; [exact Hopen'|].
    intros env tf lag ctx future. unfold getSSH.
    set (w'' := replay tr (step GateDoneAll (markClosed c w))) in *.
    destruct (isDone ctx w'') eqn:Hd; [reflexivity|].
    destruct (activeConn (tun w'')) as [c0|]; [reflexivity|].
    apply awaitSelect_open_gate_now; assumption.
  - unfold gateSane, gateOpen, wg_pending. intros Hsane.
    cbn. rewrite markClosed_tun. unfold wg_DoneAll, wg_Add.
    destruct (0 <? wg_n (activatingConn (tun w))) eqn:E; cbn;
      [reflexivity|].
    apply Z.ltb_ge in E. apply negb_false_iff. apply Z.ltb_lt. lia.
Qed.

Lemma ctxWatch_releases_waiters_witness :
  let w' := world (ctxWatch 7%nat afterOneCycle) in
  got_at (getSSH (fun _ => None) false 0%nat 2%nat
            (replay [Cancel 3%nat; GateDone; SetActive None] w') []) = 0 /\
  gateOpen (step (GateAdd 1) w') = false.
Proof.
  destruct (ctxWatch_releases_waiters 7%nat afterOneCycle)
    as (_ & _ & _ & _ & H & Hrearm).
  split.
  - apply (H [Cancel 3%nat; GateDone; SetActive None]).
    repeat constructor.
  - apply Hrearm. unfold gateSane. cbn. lia.
Defined.

(** ** What getSSH sees of a bind *)

Lemma BindSSH_ongoing ctx c w :
  activeConn (tun w) = None ->
  BindSSH ctx c None w =
  mkResult Blocked
    (replay (bindTrace ctx c (0 <? KeepAlive (config (tun w)))) w)
    (bindTrace ctx c (0 <? KeepAlive (config (tun w)))).
Proof.
  intros H. unfold BindSSH, bindTrace, bind, act, get, connWait, when, block.
  cbn. rewrite H.
  destruct (0 <? KeepAlive (config (tun w))); reflexivity.
Qed.

(** X5: while [BindSSH] is blocked on a connection that has not shut
    down, every caller of [getSSH] with a live context gets that
    connection at once, and nothing the others do meanwhile matters. *)
Theorem getSSH_during_bind env timerFirst lag bctx ctx c w future
  (Hfree : activeConn (tun w) = None)
  (Hlive : isDone ctx w = false) :
  let bound := world (BindSSH bctx c None w) in
  out (BindSSH bctx c None w) = Blocked /\
  getSSH env timerFirst lag ctx bound future =
  mkGot (Some c) AlreadyConnected 0 bound.
Proof.
  cbv zeta. rewrite (BindSSH_ongoing bctx c w Hfree). cbn [out world].
  split; [reflexivity|].
  unfold getSSH.
  assert (Hd : isDone ctx
            (replay (bindTrace bctx c (0 <? KeepAlive (config (tun w)))) w) = false).
  { unfold bindTrace. destruct (0 <? KeepAlive (config (tun w))); exact Hlive. }
  assert (Ha : activeConn (tun
            (replay (bindTrace bctx c (0 <? KeepAlive (config (tun w)))) w)) = Some c).
  { unfold bindTrace. destruct (0 <? KeepAlive (config (tun w))); reflexivity. }
  rewrite Hd, Ha. reflexivity.
Qed.

Lemma getSSH_during_bind_witness :
  getSSH (fun _ => None) true 0%nat 2%nat
    (world (BindSSH 1%nat 7%nat None (freshWorld sampleConfig)))
    (at_time 1 [Cancel 2%nat]) =
  mkGot (Some 7%nat) AlreadyConnected 0
    (world (BindSSH 1%nat 7%nat None (freshWorld sampleConfig))).
Proof.
  exact (proj2 (getSSH_during_bind (fun _ => None) true 0%nat 1%nat 2%nat 7%nat
                  (freshWorld sampleConfig) (at_time 1 [Cancel 2%nat])
                  eq_refl eq_refl)).
Defined.

Lemma getSSH_nil_without_registration env tf lag ctx w future :
  activeConn (tun w) = None ->
  Forall (fun ev => registers (snd ev) = false) future ->
  got_conn (getSSH env tf lag ctx w future) = None.
Proof.
  intros Hnone Hall. unfold getSSH.
  destruct (isDone ctx w); [reflexivity|]. rewrite Hnone.
  destruct (awaitSelect_spec (sshWait env) tf lag ctx future 0 w)
    as (pre & post & Hfut & _ & _ & Hhow).
  destruct (got_how (awaitSelect (sshWait env) tf lag ctx 0 w future));
    try contradiction; try (destruct Hhow as [H _]; exact H).
  destruct Hhow as (_ & _ & Hw & ->). rewrite Hw. unfold readAfter.
  rewrite Hfut in Hall. apply Forall_app in Hall as [Hpre Hpost].
  rewrite <- (firstn_skipn lag post) in Hpost.
  apply Forall_app in Hpost as [Hseen _].
  apply replay_without_registration; [apply Forall_map; exact Hseen|].
  apply replay_without_registration; [apply Forall_map; exact Hpre|].
  exact Hnone.
Qed.

(** X6: after [BindSSH] has returned, [getSSH] never hands out the
    connection of that bind again: as long as no new connection is
    registered it yields nil, however the gate is released meanwhile. *)
Theorem getSSH_after_unbind_is_nil env timerFirst lag bctx ctx c e w future
  (Hfree : activeConn (tun w) = None)
  (Hnone : Forall (fun ev => registers (snd ev) = false) future) :
  let unbound := world (BindSSH bctx c (Some e) w) in
  out (BindSSH bctx c (Some e) w) = Returned e /\
  got_conn (getSSH env timerFirst lag ctx unbound future) = None.
Proof.
  cbv zeta. rewrite (BindSSH_unbound bctx c e w Hfree). cbv zeta.
  cbn [out world]. split; [reflexivity|].
  apply getSSH_nil_without_registration; [|exact Hnone].
  unfold bindTrace. destruct (0 <? KeepAlive (config (tun w))); reflexivity.
Qed.

Lemma getSSH_after_unbind_is_nil_witness :
  got_conn (getSSH (fun _ => None) false 0%nat 2%nat afterOneCycle cancelOfOldBind)
  = None.
Proof.
  assert (Hnone : Forall (fun ev => registers (snd ev) = false) cancelOfOldBind)
    by (repeat constructor).
  exact (proj2 (getSSH_after_unbind_is_nil (fun _ => None) false 0%nat 1%nat 2%nat
                  7%nat None (freshWorld sampleConfig) cancelOfOldBind
                  eq_refl Hnone)).
Defined.

(** X7: [BindSSH] starts the keepalive monitor for the connection it
    binds exactly when it does bind it (the slot was empty) and the
    keepalive interval is positive; it never starts one for another
    connection, on a double bind, or with an interval of zero or less. *)
Theorem BindSSH_keepalive_iff ctx c shutdown w c' :
  In (Go (GoKeepAlive c')) (trace (BindSSH ctx c shutdown w)) <->
  c' = c /\ activeConn (tun w) = None /\ 0 < KeepAlive (config (tun w)).
Proof.
  split.
  - intros Hin.
    destruct (activeConn (tun w)) as [c0|] eqn:Hfree.
    { rewrite (BindSSH_bound ctx c shutdown w c0 Hfree) in Hin.
      cbn in Hin. destruct Hin as [Hin|[]]. discriminate. }
    destruct (0 <? KeepAlive (config (tun w))) eqn:HK.
    + apply Z.ltb_lt in HK.
      assert (Hc : In (Go (GoKeepAlive c')) (bindTrace ctx c true ++
                      [ConnWait c; GateAdd 1; SetActive None])).
      { destruct shutdown as [e|].
        - rewrite (BindSSH_unbound ctx c e w Hfree) in Hin. cbv zeta in Hin.
          cbn [trace] in Hin. apply Z.ltb_lt in HK. rewrite HK in Hin. exact Hin.
        - rewrite (BindSSH_ongoing ctx c w Hfree) in Hin. cbn [trace] in Hin.
          apply Z.ltb_lt in HK. rewrite HK in Hin.
          apply in_or_app. left. exact Hin. }
      unfold bindTrace in Hc. cbn in Hc.
      repeat (destruct Hc as [Hc|Hc]; [try discriminate|]); try contradiction.
      injection Hc as ->. auto.
    + exfalso. apply Z.ltb_ge in HK. revert Hin.
      destruct shutdown as [e|].
      * rewrite (BindSSH_unbound ctx c e w Hfree). cbv zeta. cbn [trace].
        apply Z.ltb_ge in HK. rewrite HK. unfold bindTrace. cbn.
        intuition discriminate.
      * rewrite (BindSSH_ongoing ctx c w Hfree). cbn [trace].
        apply Z.ltb_ge in HK. rewrite HK. unfold bindTrace. cbn.
        intuition discriminate.
  - intros (-> & Hfree & HK).
    apply BindSSH_starts_keepalive; assumption.
Qed.

(** ** Bind cycles *)

Lemma cycle_tun ka cy w :
  tun (replay (cycleTrace ka cy) w) =
  {| config := config (tun w);
     activatingConn := wg_Add 1 (wg_Done (activatingConn (tun w)));
     activeConn := None;
     proxyCount := proxyCount (tun w) |}.
Proof.
  unfold cycleTrace, bindTrace.
  destruct ka; cbn [app replay fold_left step setTun setGate tun];
    rewrite markClosed_tun; reflexivity.
Qed.

Lemma rearm_from_pending g : wg_n g = 1 -> wg_Add 1 (wg_Done g) = g.
Proof. destruct g as [n]. cbn. intros ->. reflexivity. Qed.

Lemma bindCycles_run cycles : forall w,
  activeConn (tun w) = None ->
  bindCycles cycles w =
  mkResult (Returned (map snd cycles))
    (replay (flat_map (cycleTrace (0 <? KeepAlive (config (tun w)))) cycles) w)
    (flat_map (cycleTrace (0 <? KeepAlive (config (tun w)))) cycles).
Proof.
  induction cycles as [|[[ctx c] e] rest IH]; intros w Hfree; [reflexivity|].
  cbn [bindCycles flat_map map snd].
  rewrite (bind_returned _ _ w _ _ _ (BindSSH_unbound ctx c e w Hfree)).
  set (ka := 0 <? KeepAlive (config (tun w))).
  change (bindTrace ctx c ka ++ [ConnWait c; GateAdd 1; SetActive None])
    with (cycleTrace ka (ctx, c, e)).
  set (w1 := replay (cycleTrace ka (ctx, c, e)) w).
  assert (Htun : tun w1 = _) by (apply cycle_tun).
  assert (Hfree1 : activeConn (tun w1) = None) by (rewrite Htun; reflexivity).
  assert (Hka : (0 <? KeepAlive (config (tun w1))) = ka)
    by (rewrite Htun; reflexivity).
  rewrite (bind_returned _ _ w1 _ _ _ (IH w1 Hfree1)).
  rewrite Hka. unfold ret. cbn [out world trace].
  rewrite app_nil_r. subst w1. rewrite <- replay_app. reflexivity.
Qed.

(** X8: any number of bind cycles can follow one another on a tunnel
    whose slot is empty: no [BindSSH] panics, each returns the error of
    its [c.Wait()], every connection bound has shut down by the end, and
    a tunnel whose gate was armed once (as [New] leaves it) is in the end
    exactly as it was at the start. *)
Theorem bindCycles_reuse_tunnel cycles w
  (Hfree : activeConn (tun w) = None) :
  let r := bindCycles cycles w in
  out r = Returned (map snd cycles) /\
  trace r = flat_map (cycleTrace (0 <? KeepAlive (config (tun w)))) cycles /\
  activeConn (tun (world r)) = None /\
  (forall cy, In cy cycles -> isClosed (snd (fst cy)) (world r) = true) /\
  (wg_n (activatingConn (tun w)) = 1 -> tun (world r) = tun w).
Proof.
  cbv zeta. rewrite (bindCycles_run cycles w Hfree). cbn [out world trace].
  split; [reflexivity|]. split; [reflexivity|].
  set (ka := 0 <? KeepAlive (config (tun w))). clearbody ka.
  split; [|split].
  - revert w Hfree. induction cycles as [|cy rest IH]; intros w Hfree;
      [exact Hfree|].
    cbn [flat_map]. rewrite replay_app. apply IH.
    rewrite cycle_tun. reflexivity.
  - assert (Hkeep : forall tr c0 w0, isClosed c0 w0 = true ->
                      isClosed c0 (replay tr w0) = true).
    { induction tr as [|a tr IHtr]; intros c0 w0 H0; [exact H0|].
      change (replay (a :: tr) w0) with (replay tr (step a w0)).
      apply IHtr. destruct a; cbn [step setTun setGate]; try exact H0.
      - unfold markClosed. destruct (isClosed c w0); [exact H0|].
        unfold isClosed in *. cbn. rewrite H0. apply orb_true_r.
      - unfold markClosed. destruct (isClosed c w0); [exact H0|].
        unfold isClosed in *. cbn. rewrite H0. apply orb_true_r.
      - destruct (isDone ctx w0); exact H0. }
    revert w Hfree. induction cycles as [|cy0 rest IH]; intros w Hfree cy Hin;
      [contradiction|].
    cbn [flat_map]. rewrite replay_app. destruct Hin as [->|Hin].
    + apply Hkeep. unfold cycleTrace. rewrite replay_app.
      set (w0 := replay (bindTrace (fst (fst cy)) (snd (fst cy)) ka) w).
      change (replay [ConnWait (snd (fst cy)); GateAdd 1; SetActive None] w0)
        with (replay [GateAdd 1; SetActive None]
                (step (ConnWait (snd (fst cy))) w0)).
      apply Hkeep. cbn [step]. apply markClosed_isClosed.
    + apply IH; [|exact Hin]. rewrite cycle_tun. reflexivity.
  - revert w Hfree. induction cycles as [|cy rest IH]; intros w Hfree Hgate;
      [reflexivity|].
    cbn [flat_map]. rewrite replay_app.
    assert (Hsame : tun (replay (cycleTrace ka cy) w) = tun w).
    { rewrite cycle_tun, (rearm_from_pending _ Hgate).
      destruct (tun w) as [cfg g a pc] eqn:E. cbn in *. rewrite Hfree.
      reflexivity. }
    rewrite IH; [exact Hsame | rewrite Hsame; exact Hfree
                | rewrite Hsame; exact Hgate].
Qed.

Lemma bindCycles_reuse_tunnel_witness :
  let r := bindCycles [(1%nat, 7%nat, Some "EOF"); (1%nat, 8%nat, None)]
             (freshWorld sampleConfig) in
  out r = Returned [Some "EOF"; None] /\
  tun (world r) = New sampleConfig.
Proof.
  destruct (bindCycles_reuse_tunnel
              [(1%nat, 7%nat, Some "EOF"); (1%nat, 8%nat, None)]
              (freshWorld sampleConfig) eq_refl)
    as (Hout & _ & _ & _ & Htun).
  split; [exact Hout | exact (Htun eq_refl)].
Defined.

(** ** The gate never stands open over an empty slot *)

Lemma step_gateAndSlot_other a w :
  touchesGate a = false -> gateAndSlot (step a w) = gateAndSlot w.
Proof.
  unfold gateAndSlot.
  destruct a; cbn [touchesGate]; try discriminate; intros _;
    cbn [step setTun tun activatingConn activeConn];
    rewrite ?markClosed_tun; try reflexivity.
  destruct (isDone ctx w); reflexivity.
Qed.

Lemma step_gateAndSlot_ext a w1 w2 :
  gateAndSlot w1 = gateAndSlot w2 ->
  gateAndSlot (step a w1) = gateAndSlot (step a w2).
Proof.
  unfold gateAndSlot. intros [= Hg Hs].
  destruct a; cbn [step setTun setGate tun activatingConn activeConn];
    rewrite ?markClosed_tun, ?Hg, ?Hs; try reflexivity.
  destruct (isDone ctx w1); destruct (isDone ctx w2); cbn;
    rewrite ?Hg, ?Hs; reflexivity.
Qed.

Lemma replay_gateAndSlot_ext tr : forall w1 w2,
  gateAndSlot w1 = gateAndSlot w2 ->
  gateAndSlot (replay tr w1) = gateAndSlot (replay tr w2).
Proof.
  induction tr as [|a tr IH]; intros w1 w2 H; [exact H|].
  change (replay (a :: tr) w1) with (replay tr (step a w1)).
  change (replay (a :: tr) w2) with (replay tr (step a w2)).
  apply IH. apply step_gateAndSlot_ext. exact H.
Qed.

Lemma replay_gateAndSlot_filter tr : forall w,
  gateAndSlot (replay tr w) = gateAndSlot (replay (filter touchesGate tr) w).
Proof.
  induction tr as [|a tr IH]; intros w; [reflexivity|].
  change (replay (a :: tr) w) with (replay tr (step a w)).
  cbn [filter]. destruct (touchesGate a) eqn:E.
  - change (replay (a :: filter touchesGate tr) w)
      with (replay (filter touchesGate tr) (step a w)).
    apply IH.
  - rewrite IH. apply replay_gateAndSlot_ext.
    apply step_gateAndSlot_other. exact E.
Qed.

Lemma slotGuarded_gateAndSlot w1 w2 :
  gateAndSlot w1 = gateAndSlot w2 -> slotGuarded w2 -> slotGuarded w1.
Proof.
  unfold gateAndSlot, slotGuarded, gateOpen. intros [= Hg Hs].
  rewrite Hg, Hs. auto.
Qed.

Lemma filter_cycleTrace ka cy :
  filter touchesGate (cycleTrace ka cy) =
  [SetActive (Some (snd (fst cy))); GateDone; GateAdd 1; SetActive None].
Proof. unfold cycleTrace, bindTrace. destruct ka; reflexivity. Qed.

Lemma filter_cycles ka cycles :
  filter touchesGate (flat_map (cycleTrace ka) cycles) = slotActions cycles.
Proof.
  induction cycles as [|cy rest IH]; [reflexivity|].
  cbn [flat_map]. rewrite filter_app, filter_cycleTrace, IH. reflexivity.
Qed.

(** The writes of bind cycles, cut anywhere, on a tunnel armed once. *)
Lemma slotActions_guarded cycles : forall w p q,
  wg_n (activatingConn (tun w)) = 1 ->
  activeConn (tun w) = None ->
  p ++ q = slotActions cycles ->
  slotGuarded (replay p w).
Proof.
  induction cycles as [|cy rest IH]; intros w p q Hgate Hfree Hpq.
  - apply app_eq_nil in Hpq as [-> _]. unfold slotGuarded, gateOpen, wg_pending.
    cbn. rewrite Hgate. discriminate.
  - cbn [slotActions flat_map app] in Hpq.
    fold (slotActions rest) in Hpq.
    assert (Hpending : forall w0, wg_n (activatingConn (tun w0)) = 1 ->
                         slotGuarded w0).
    { intros w0 H0. unfold slotGuarded, gateOpen, wg_pending.
      rewrite H0. discriminate. }
    destruct p as [|a1 p]; [apply Hpending; exact Hgate|].
    injection Hpq as -> Hpq.
    destruct p as [|a2 p]; [apply Hpending; exact Hgate|].
    injection Hpq as -> Hpq.
    destruct p as [|a3 p].
    { unfold slotGuarded. cbn. discriminate. }
    injection Hpq as -> Hpq.
    destruct p as [|a4 p].
    { apply Hpending. cbn. unfold wg_Done. rewrite Hgate. reflexivity. }
    injection Hpq as -> Hpq.
    change (replay (SetActive (Some (snd (fst cy))) :: GateDone :: GateAdd 1
                      :: SetActive None :: p) w)
      with (replay p (replay [SetActive (Some (snd (fst cy))); GateDone;
                              GateAdd 1; SetActive None] w)).
    apply (IH _ p q); [|reflexivity|exact Hpq].
    cbn. unfold wg_Done. rewrite Hgate. reflexivity.
Qed.

Lemma onlyBindCycles_guarded tr w :
  wg_n (activatingConn (tun w)) = 1 ->
  activeConn (tun w) = None ->
  onlyBindCycles tr ->
  slotGuarded (replay tr w).
Proof.
  intros Hgate Hfree (cycles & rest & Htr).
  apply (slotGuarded_gateAndSlot _ (replay (filter touchesGate tr) w)).
  - apply replay_gateAndSlot_filter.
  - apply (slotActions_guarded cycles w _ rest); assumption.
Qed.

Lemma onlyBindCycles_prefix p q : onlyBindCycles (p ++ q) -> onlyBindCycles p.
Proof.
  intros (cycles & rest & H). rewrite filter_app, <- app_assoc in H.
  exists cycles, (filter touchesGate q ++ rest). exact H.
Qed.

(** X9: on a tunnel armed once and with an empty slot, bind cycles one
    after the other, interleaved with anything that writes neither the
    gate nor the slot, never leave the gate open over an empty slot, at
    any moment: [BindSSH] registers before it opens the gate and re-arms
    before it clears.  The traces of [BindSSH] are of this kind. *)
Theorem bind_cycles_guard_the_slot tr w
  (Hgate : wg_n (activatingConn (tun w)) = 1)
  (Hfree : activeConn (tun w) = None)
  (Hcycles : onlyBindCycles tr) :
  (forall p q, tr = p ++ q -> slotGuarded (replay p w)) /\
  (forall keepAlive cycles,
     onlyBindCycles (flat_map (cycleTrace keepAlive) cycles)) /\
  (forall ctx c, onlyBindCycles (trace (BindSSH ctx c None w))).
Proof.
  split; [|split].
  - intros p q ->. apply onlyBindCycles_guarded; try assumption.
    apply (onlyBindCycles_prefix p q). exact Hcycles.
  - intros ka cycles. exists cycles, []. rewrite app_nil_r.
    apply filter_cycles.
  - intros ctx c. rewrite (BindSSH_ongoing ctx c w Hfree). cbn [trace].
    exists [(ctx, c, None)], [GateAdd 1; SetActive None].
    unfold bindTrace. destruct (0 <? KeepAlive (config (tun w))); reflexivity.
Qed.

Lemma bind_cycles_guard_the_slot_witness :
  slotGuarded
    (replay (cycleTrace true (1%nat, 7%nat, None) ++
             [Go (GoCtxWatch 1%nat 8%nat); Cancel 3%nat;
              SetActive (Some 8%nat); GateDone])
       (freshWorld sampleConfig)).
Proof.
  assert (H : onlyBindCycles
            ((cycleTrace true (1%nat, 7%nat, None) ++
              [Go (GoCtxWatch 1%nat 8%nat); Cancel 3%nat;
               SetActive (Some 8%nat); GateDone]) ++ [])).
  { exists [(1%nat, 7%nat, None); (1%nat, 8%nat, None)],
           [GateAdd 1; SetActive None]. reflexivity. }
  exact (proj1 (bind_cycles_guard_the_slot _ (freshWorld sampleConfig)
                  eq_refl eq_refl H) _ [] eq_refl).
Defined.

Lemma slot_emptied_by_clear tr : forall w,
  activeConn (tun w) <> None ->
  activeConn (tun (replay tr w)) = None ->
  In (SetActive None) tr.
Proof.
  induction tr as [|a tr IH]; intros w Hset Hnone; [contradiction|].
  change (replay (a :: tr) w) with (replay tr (step a w)) in Hnone.
  destruct (writesSlot a) eqn:Ea.
  - destruct a; try discriminate Ea. destruct c as [c|].
    + right. apply (IH (step (SetActive (Some c)) w)); [|exact Hnone].
      cbn. discriminate.
    + left. reflexivity.
  - right. apply (IH (step a w)); [|exact Hnone].
    change (step a w) with (replay [a] w).
    rewrite (replay_without_slot_write [a] w); [exact Hset|].
    constructor; [exact Ea|constructor].
Qed.

(** X10: for a caller blocked in [getSSH] while the gate and the slot
    are written by bind cycles only (no [DoneAll]), the gate opens over
    a registered connection, and the caller ends by cancellation of its
    context with nil, by the timeout with nil, or through the gate.
    Through the gate it gets a connection, unless a [BindSSH] has
    cleared the slot between the wake and the read: only then does it
    get nil. *)
Theorem getSSH_gate_nil_only_after_clear env timerFirst lag ctx w future
  (Hlive : isDone ctx w = false)
  (Hfree : activeConn (tun w) = None)
  (Hgate : wg_n (activatingConn (tun w)) = 1)
  (Hcycles : onlyBindCycles (map snd future)) :
  let g := getSSH env timerFirst lag ctx w future in
  (got_how g = ByCancel /\ got_conn g = None) \/
  (got_how g = ByTimeout /\ got_conn g = None) \/
  (got_how g = ByGate /\
   exists pre post,
     future = pre ++ post /\
     gateOpen (replay (map snd pre) w) = true /\
     activeConn (tun (replay (map snd pre) w)) <> None /\
     ((exists c, got_conn g = Some c) \/
      (got_conn g = None /\
       In (SetActive None) (map snd (firstn lag post))))).
Proof.
  cbv zeta. unfold getSSH. rewrite Hlive, Hfree.
  destruct (awaitSelect_spec (sshWait env) timerFirst lag ctx future 0 w)
    as (pre & post & Hfut & _ & _ & Hhow).
  destruct (got_how (awaitSelect (sshWait env) timerFirst lag ctx 0 w future));
    try contradiction.
  - left. split; [reflexivity|apply Hhow].
  - right. left. split; [reflexivity|apply Hhow].
  - right. right. split; [reflexivity|].
    destruct Hhow as (_ & Hopen & Hw & Hconn).
    assert (Hguard : slotGuarded (replay (map snd pre) w)).
    { apply onlyBindCycles_guarded; try assumption.
      apply (onlyBindCycles_prefix _ (map snd post)).
      rewrite <- map_app, <- Hfut. exact Hcycles. }
    specialize (Hguard Hopen).
    exists pre, post. split; [exact Hfut|]. split; [exact Hopen|].
    split; [exact Hguard|].
    rewrite Hconn, Hw.
    destruct (activeConn (tun (readAfter lag (replay (map snd pre) w) post)))
      as [c|] eqn:E; [left; exists c; reflexivity|].
    right. split; [reflexivity|].
    apply (slot_emptied_by_clear _ (replay (map snd pre) w) Hguard E).
Qed.

Lemma getSSH_gate_nil_only_after_clear_witness :
  let g := getSSH (fun _ => None) false 6%nat 2%nat (freshWorld sampleConfig)
             (at_time 3 (cycleTrace true (1%nat, 7%nat, None))) in
  got_how g = ByGate /\ got_conn g = None /\
  exists pre post,
    at_time 3 (cycleTrace true (1%nat, 7%nat, None)) = pre ++ post /\
    In (SetActive None) (map snd (firstn 6 post)).
Proof.
  assert (H : onlyBindCycles
                (map snd (at_time 3 (cycleTrace true (1%nat, 7%nat, None))))).
  { exists [(1%nat, 7%nat, None)], []. reflexivity. }
  destruct (getSSH_gate_nil_only_after_clear (fun _ => None) false 6%nat 2%nat
              (freshWorld sampleConfig)
              (at_time 3 (cycleTrace true (1%nat, 7%nat, None)))
              eq_refl eq_refl eq_refl H)
    as [[Hh _]|[[Hh _]|[Hh (pre & post & Hfut & _ & _ & Hread)]]];
    try (exfalso; revert Hh; vm_compute; discriminate).
  split; [exact Hh|]. split; [reflexivity|].
  exists pre, post. split; [exact Hfut|].
  destruct Hread as [[c Hc]|[_ Hin]]; [|exact Hin].
  exfalso. revert Hc. vm_compute. discriminate.
Defined.

(** ** More on the keepalive monitor *)

Lemma chanRecv_nil_iff p :
  chanRecv (KeepAliveChan p) = None <->
  reply_err p = None /\ (reply_payload p = "" \/ reply_payload p = "pong").
Proof.
  unfold chanRecv, KeepAliveChan.
  destruct (reply_err p) as [e|].
  { cbn. split; [discriminate|]. intros [H _]. discriminate. }
  cbn [app].
  destruct (reply_payload p) as [|a s] eqn:E.
  { cbn. split; auto. }
  cbn [String.length Nat.ltb Nat.leb andb].
  destruct (String.eqb (String a s) "pong") eqn:Ep; cbn.
  - apply String.eqb_eq in Ep. split; auto.
  - apply String.eqb_neq in Ep. split; [discriminate|].
    intros [_ [H|H]]; [discriminate|congruence].
Qed.

Lemma probeOK_iff K p : probeOK K p = true <-> survivable K p.
Proof.
  unfold probeOK, survivable, keepAliveSelect.
  destruct (reply_after p) as [d|].
  2:{ split; [discriminate|]. intros ((d & H & _) & _). discriminate. }
  destruct (d <? K) eqn:E1.
  - apply Z.ltb_lt in E1.
    destruct (chanRecv (KeepAliveChan p)) eqn:Ec.
    + split; [discriminate|]. intros (_ & He & Hp).
      assert (H : chanRecv (KeepAliveChan p) = None)
        by (apply chanRecv_nil_iff; auto).
      congruence.
    + apply chanRecv_nil_iff in Ec as [He Hp].
      split; [|reflexivity]. intros _.
      split; [exists d; auto|auto].
  - apply Z.ltb_ge in E1.
    destruct (d =? K) eqn:E2; destruct (timer_first p) eqn:E3; cbn [andb negb].
    + split; [discriminate|]. intros ((d' & [= <-] & [H|[_ H]]) & _);
        [lia|discriminate].
    + apply Z.eqb_eq in E2.
      destruct (chanRecv (KeepAliveChan p)) eqn:Ec.
      * split; [discriminate|]. intros (_ & He & Hp).
        assert (H : chanRecv (KeepAliveChan p) = None)
          by (apply chanRecv_nil_iff; auto).
        congruence.
      * apply chanRecv_nil_iff in Ec as [He Hp].
        split; [|reflexivity]. intros _.
        split; [exists d; auto|auto].
    + apply Z.eqb_neq in E2.
      split; [discriminate|]. intros ((d' & [= <-] & [H|[H _]]) & _); lia.
    + apply Z.eqb_neq in E2.
      split; [discriminate|]. intros ((d' & [= <-] & [H|[H _]]) & _); lia.
Qed.

Lemma first_failure_split K env :
  Forall (fun p => probeOK K p = true) env \/
  exists ps p rest,
    env = ps ++ p :: rest /\
    Forall (fun p => probeOK K p = true) ps /\
    probeOK K p = false.
Proof.
  induction env as [|q env IH]; [left; constructor|].
  destruct (probeOK K q) eqn:E.
  - destruct IH as [IH|(ps & p & rest & -> & Hps & Hp)].
    + left. constructor; assumption.
    + right. exists (q :: ps), p, rest.
      split; [reflexivity|]. split; [constructor; assumption|exact Hp].
  - right. exists [], q, env. split; [reflexivity|]. split; [constructor|exact E].
Qed.

(** X11: the monitor keeps running exactly as long as every ping gets,
    before the timer, a reply without request error whose payload is
    empty or "pong"; it then has not closed the connection.  Once a ping
    meets anything else the monitor returns and the connection is
    closed. *)
Theorem keepAliveLoop_alive_iff c env w :
  let K := KeepAlive (config (tun w)) in
  let r := keepAliveLoop c env w in
  (out r = Blocked <-> Forall (survivable K) env) /\
  (out r = Blocked -> world r = w) /\
  (out r <> Blocked -> out r = Returned tt /\ isClosed c (world r) = true).
Proof.
  intros K r. subst r.
  destruct (first_failure_split K env) as [Hall|(ps & p & rest & -> & Hps & Hp)].
  - rewrite (keepAliveLoop_alive c env w Hall). cbn [out world].
    split; [|split; [reflexivity|congruence]].
    split; [|reflexivity]. intros _.
    eapply Forall_impl; [|exact Hall]. intros q Hq. apply probeOK_iff. exact Hq.
  - rewrite (keepAliveLoop_first_failure c ps p rest w Hps Hp). cbn [out world].
    split; [|split; [discriminate|]].
    + split; [discriminate|]. intros Hall. exfalso.
      apply Forall_app in Hall as [_ Hall]. inversion Hall as [|? ? Hs _]; subst.
      apply probeOK_iff in Hs. fold K in Hs. congruence.
    + intros _. split; [reflexivity|apply markClosed_isClosed].
Qed.

(** X12: when the request itself fails, its error is what the loop
    receives, whatever the payload: an error arriving before the timer
    ends the monitor with that error received and the connection closed,
    also under a payload "pong". *)
Theorem keepalive_request_error_is_terminal c ps p rest w d e
  (Hps : Forall (fun q => probeOK (KeepAlive (config (tun w))) q = true) ps)
  (Hreply : reply_after p = Some d)
  (Hintime : d < KeepAlive (config (tun w)))
  (Herr : reply_err p = Some e) :
  let K := KeepAlive (config (tun w)) in
  chanRecv (KeepAliveChan p) = Some e /\
  keepAliveLoop c (ps ++ p :: rest) w =
    mkResult (Returned tt) (markClosed c w)
      (flat_map (pingTrace K c) ps ++
       [Sleep K; Go (GoPing c); SendRequest c "ping" true;
        ChanRecv d (Some e); ConnClose c]).
Proof.
  intros K.
  assert (Hch : chanRecv (KeepAliveChan p) = Some e).
  { unfold chanRecv, KeepAliveChan. rewrite Herr. reflexivity. }
  assert (Hsel : keepAliveSelect K p = ChanCase d (Some e)).
  { unfold keepAliveSelect. rewrite Hreply, Hch.
    apply Z.ltb_lt in Hintime. fold K in Hintime. rewrite Hintime. reflexivity. }
  assert (Hp : probeOK K p = false) by (unfold probeOK; rewrite Hsel; reflexivity).
  split; [exact Hch|].
  rewrite (keepAliveLoop_first_failure c ps p rest w Hps Hp). fold K.
  unfold pingTrace. rewrite Hsel. reflexivity.
Qed.

Lemma keepalive_request_error_is_terminal_witness :
  let r := keepAliveLoop 7%nat ([samplePong 1] ++ sampleFailing :: [samplePong 1])
             (freshWorld sampleConfig) in
  out r = Returned tt /\
  In (ChanRecv 5 (Some "EOF")) (trace r) /\
  isClosed 7%nat (world r) = true.
Proof.
  assert (Hps : Forall (fun q => probeOK (KeepAlive (config (tun (freshWorld sampleConfig)))) q = true)
                  [samplePong 1])
    by (repeat constructor).
  assert (Hlt : 5 < KeepAlive (config (tun (freshWorld sampleConfig))))
    by reflexivity.
  destruct (keepalive_request_error_is_terminal 7%nat [samplePong 1]
              sampleFailing [samplePong 1] (freshWorld sampleConfig) 5 "EOF"
              Hps eq_refl Hlt eq_refl) as [_ H].
  cbv zeta. rewrite H. cbn [out world trace].
  split; [reflexivity|]. split; [|reflexivity].
  apply in_or_app. right. cbn. auto 10.
Defined.

(** X13: the monitor writes nothing of the tunnel and cancels no
    context; the one connection it can close is its own, and it does so
    only when it returns. *)
Theorem keepAliveLoop_touches_only_its_connection c env w :
  let r := keepAliveLoop c env w in
  tun (world r) = tun w /\
  cancelled (world r) = cancelled w /\
  (forall c', c' <> c -> isClosed c' (world r) = isClosed c' w) /\
  (In (ConnClose c) (trace r) <-> out r = Returned tt) /\
  Forall (fun a => touchesGate a = false) (trace r).
Proof.
  cbv zeta.
  assert (Hquiet : forall K ps,
            Forall (fun a => touchesGate a = false) (flat_map (pingTrace K c) ps) /\
            ~ In (ConnClose c) (flat_map (pingTrace K c) ps)).
  { intros K ps. induction ps as [|q ps [IH1 IH2]]; [split; [constructor|auto]|].
    cbn [flat_map]. split.
    - apply Forall_app. split; [|exact IH1].
      unfold pingTrace. destruct (keepAliveSelect K q); repeat constructor.
    - intros Hin. apply in_app_or in Hin as [Hin|Hin]; [|exact (IH2 Hin)].
      unfold pingTrace in Hin. cbn in Hin.
      destruct (keepAliveSelect K q); intuition discriminate. }
  destruct (first_failure_split (KeepAlive (config (tun w))) env)
    as [Hall|(ps & p & rest & -> & Hps & Hp)].
  - rewrite (keepAliveLoop_alive c env w Hall). cbn [out world trace].
    destruct (Hquiet (KeepAlive (config (tun w))) env) as [Hq1 Hq2].
    split; [reflexivity|]. split; [reflexivity|]. split; [reflexivity|].
    split; [|exact Hq1]. split; [intros H; contradiction|discriminate].
  - rewrite (keepAliveLoop_first_failure c ps p rest w Hps Hp).
    cbn [out world trace].
    destruct (Hquiet (KeepAlive (config (tun w))) (ps ++ [p])) as [Hq1 _].
    rewrite flat_map_app in Hq1. cbn [flat_map] in Hq1. rewrite app_nil_r in Hq1.
    split; [apply markClosed_tun|].
    split; [unfold markClosed; destruct (isClosed c w); reflexivity|].
    split.
    { intros c' Hc'. unfold markClosed. destruct (isClosed c w); [reflexivity|].
      unfold isClosed. cbn.
      destruct (Nat.eqb c' c) eqn:E; [apply Nat.eqb_eq in E; congruence|reflexivity]. }
    split.
    { split; [reflexivity|]. intros _.
      apply in_or_app. right. apply in_or_app. right. left. reflexivity. }
    rewrite app_assoc. apply Forall_app. split; [exact Hq1|repeat constructor].
Qed.

Lemma elapsed_app tr1 tr2 : elapsed (tr1 ++ tr2) = elapsed tr1 + elapsed tr2.
Proof.
  induction tr1 as [|a tr1 IH]; [reflexivity|].
  cbn [app]. unfold elapsed in *. cbn [fold_right]. rewrite IH. lia.
Qed.

Lemma elapsed_round K c p : elapsed (pingTrace K c p) = K + waited K p.
Proof.
  unfold pingTrace, waited, elapsed. cbn.
  destruct (keepAliveSelect K p); cbn; lia.
Qed.

Lemma waited_bounds K p :
  0 <= K -> nonnegLatency p -> 0 <= waited K p <= K.
Proof.
  intros HK Hp. unfold waited.
  destruct (keepAliveSelect K p) as [|d e] eqn:E; [lia|].
  split; [|exact (select_wait_bounded K p d e E)].
  apply Hp. unfold keepAliveSelect in E.
  destruct (reply_after p) as [d'|]; [|discriminate].
  destruct (d' <? K); [injection E as <- _; reflexivity|].
  destruct ((d' =? K) && negb (timer_first p)); [|discriminate].
  injection E as <- _. reflexivity.
Qed.

Lemma elapsed_rounds K c ps :
  0 <= K -> Forall nonnegLatency ps ->
  Z.of_nat (List.length ps) * K <= elapsed (flat_map (pingTrace K c) ps)
    <= 2 * Z.of_nat (List.length ps) * K.
Proof.
  intros HK Hps. induction Hps as [|p ps Hp _ IH]; [cbn; lia|].
  cbn [flat_map List.length]. rewrite elapsed_app, elapsed_round.
  pose proof (waited_bounds K p HK Hp). lia.
Qed.

(** X14: a round of the monitor sleeps one interval and then waits for
    the reply for up to one more (a full one when the timer fires), so
    after m pings between m and 2m intervals have passed, whether the
    monitor is still running or has returned. *)
Theorem keepalive_ping_spacing c env w
  (Hstarted : 0 < KeepAlive (config (tun w)))
  (Hlat : Forall nonnegLatency env) :
  let K := KeepAlive (config (tun w)) in
  let r := keepAliveLoop c env w in
  let m := Z.of_nat (List.length (filter isPing (trace r))) in
  m * K <= elapsed (trace r) <= 2 * m * K /\
  (forall q, elapsed (pingTrace K c q) = K + waited K q) /\
  (forall q, keepAliveSelect K q = TimerCase -> elapsed (pingTrace K c q) = 2 * K).
Proof.
  intros K r m. subst r m.
  split.
  - destruct (first_failure_split K env) as [Hall|(ps & p & rest & -> & Hps & Hp)].
    + rewrite (keepAliveLoop_alive c env w Hall). cbn [trace]. fold K.
      rewrite count_pings. apply elapsed_rounds; [lia|exact Hlat].
    + rewrite (keepAliveLoop_first_failure c ps p rest w Hps Hp). cbn [trace].
      fold K.
      assert (Htr : flat_map (pingTrace K c) ps ++ pingTrace K c p ++ [ConnClose c]
                    = flat_map (pingTrace K c) (ps ++ [p]) ++ [ConnClose c]).
      { rewrite flat_map_app. cbn [flat_map]. rewrite app_nil_r, app_assoc.
        reflexivity. }
      rewrite Htr, filter_app, length_app, count_pings, elapsed_app.
      cbn [filter isPing List.length elapsed fold_right duration].
      assert (Hl : Forall nonnegLatency (ps ++ [p])).
      { apply Forall_app in Hlat as [H1 H2]. inversion H2; subst.
        apply Forall_app. split; [exact H1|]. constructor; [assumption|constructor]. }
      pose proof (elapsed_rounds K c (ps ++ [p]) ltac:(lia) Hl). lia.
  - split; [intros q; apply elapsed_round|].
    intros q Hq. rewrite elapsed_round. unfold waited. rewrite Hq. lia.
Qed.

Lemma keepalive_ping_spacing_witness :
  let r := keepAliveLoop 7%nat
             [samplePong (10 * Second); samplePong (20 * Second); sampleSilent]
             (freshWorld sampleConfig) in
  elapsed (trace r) = 150 * Second /\
  3 * (30 * Second) <= elapsed (trace r) <= 2 * 3 * (30 * Second).
Proof.
  assert (H0 : 0 < KeepAlive (config (tun (freshWorld sampleConfig))))
    by reflexivity.
  assert (Hlat : Forall nonnegLatency
            [samplePong (10 * Second); samplePong (20 * Second); sampleSilent]).
  { repeat constructor; intros d [= <-]; discriminate. }
  split; [reflexivity|].
  exact (proj1 (keepalive_ping_spacing 7%nat
                  [samplePong (10 * Second); samplePong (20 * Second); sampleSilent]
                  (freshWorld sampleConfig) H0 Hlat)).
Defined.

(** ** More on BindRemotes *)

Section FanOutEdges.

Context {Remote Proxy : Type}.
Variable NewProxy : Z -> Remote -> Proxy + error.

Lemma buildProxies_shape remotes : forall w,
  Forall (fun a => isGo a = false) (trace (buildProxies NewProxy remotes w)) /\
  (List.length (filter isInc (trace (buildProxies NewProxy remotes w)))
    <= List.length remotes)%nat /\
  match out (buildProxies NewProxy remotes w) with
  | Returned (inl proxies) =>
      List.length proxies = List.length remotes /\
      List.length (filter isInc (trace (buildProxies NewProxy remotes w)))
        = List.length remotes
  | Returned (inr _) =>
      (List.length (filter isInc (trace (buildProxies NewProxy remotes w)))
         < List.length remotes)%nat
  | Panicked _ | Blocked => False
  end.
Proof.
  induction remotes as [|remote rest IH]; intros w.
  - cbn. repeat split; constructor.
  - rewrite buildProxies_cons.
    destruct (NewProxy (proxyCount (tun w)) remote) as [p|err].
    + cbv zeta. cbn [out trace].
      destruct (IH (step ProxyCountInc w)) as (H1 & H2 & H3).
      cbn [filter isInc List.length].
      split; [repeat constructor; exact H1|]. split; [lia|].
      destruct (out (buildProxies NewProxy rest (step ProxyCountInc w)))
        as [[l|e]| |]; cbn [List.length]; try contradiction; lia.
    + cbn. split; [repeat constructor|]. split; lia.
Qed.

Lemma groupWait_no_go gctx sched : forall g w,
  Forall (fun a => isGo a = false) (trace (groupWait gctx sched g w)).
Proof.
  induction sched as [|[k r] rest IH]; intros g w.
  - cbn. destruct (g_running g); cbn; repeat constructor.
  - destruct (g_running g) as [|x l] eqn:E.
    + rewrite (groupWait_drained gctx _ g w E). repeat constructor.
    + assert (Hne : g_running g <> []) by (rewrite E; discriminate).
      rewrite (groupWait_next gctx k r rest g w Hne).
      destruct (isRunning k g) eqn:Ek.
      * rewrite (bind_returned _ _ w _ _ _ (unitReturns_running gctx k r g w Ek)).
        cbn [trace]. apply Forall_app. split; [|apply IH].
        destruct (cancels r g); repeat constructor.
      * rewrite (bind_returned _ _ w _ _ _ (unitReturns_stranger gctx k r g w Ek)).
        cbn [trace app]. apply IH.
Qed.

(** X15: when [NewProxy] fails for a remote, [BindRemotes] returns that
    error at once: none of the proxies already built is run, no group
    context is derived, the remotes after the failing one are not looked
    at, and [proxyCount] keeps the increments made for the proxies built
    before the failure. *)
Theorem BindRemotes_construction_error ctx gctx remotes sched w err
  (Hsome : remotes <> [])
  (Hin : Inbound (config (tun w)) = true)
  (Hfail : out (buildProxies NewProxy remotes w) = Returned (inr err)) :
  let r := BindRemotes NewProxy ctx gctx remotes sched w in
  out r = Returned (Some err) /\
  trace r = trace (buildProxies NewProxy remotes w) /\
  Forall (fun a => isGo a = false) (trace r) /\
  ~ In (WithContext ctx gctx) (trace r) /\
  isDone gctx (world r) = isDone gctx w /\
  (List.length (filter isInc (trace r)) < List.length remotes)%nat /\
  (minInt <= proxyCount (tun w) ->
   proxyCount (tun w) + Z.of_nat (List.length remotes) <= maxInt ->
   proxyCount (tun (world r)) = proxyCount (tun w) + incsIn (trace r) /\
   trace r = buildTrace NewProxy (proxyCount (tun w)) remotes).
Proof.
  cbv zeta.
  rewrite (BindRemotes_accepted NewProxy ctx gctx remotes sched w Hsome Hin), Hfail.
  cbn [out world trace].
  destruct (buildProxies_shape remotes w) as (Hgo & _ & Hout).
  rewrite Hfail in Hout.
  destruct (buildProxies_frame NewProxy remotes w) as (_ & _ & _ & _ & Hc & _).
  split; [reflexivity|]. split; [reflexivity|]. split; [exact Hgo|].
  split.
  { intros Hinw. clear - Hinw.
    revert w Hinw. induction remotes as [|remote rest IH]; intros w Hinw;
      [contradiction|].
    rewrite buildProxies_cons in Hinw.
    destruct (NewProxy (proxyCount (tun w)) remote).
    - cbv zeta in Hinw. cbn [trace] in Hinw.
      destruct Hinw as [H|[H|H]]; try discriminate. exact (IH _ H).
    - cbn in Hinw. destruct Hinw as [H|[]]. discriminate. }
  split; [unfold isDone; rewrite Hc; reflexivity|].
  split; [exact Hout|].
  intros Hlo Hhi.
  destruct (buildProxies_spec NewProxy remotes w Hlo Hhi) as (Htr & Hpc & _ & _).
  split; [|exact Htr].
  rewrite Hpc, Htr. unfold incsIn. f_equal. f_equal.
  clear. generalize (proxyCount (tun w)) as pc.
  induction remotes as [|remote rest IH]; intros pc; [reflexivity|].
  cbn [built buildTrace filter isInc].
  destruct (NewProxy pc remote); [|reflexivity].
  cbn [filter isInc List.length]. rewrite <- IH. reflexivity.
Qed.

(** X16: each remote has its own proxy.  When every proxy is built,
    there are as many as remotes, [proxyCount] has been incremented once
    for each, and [BindRemotes] starts exactly one unit per remote, all
    under the group's context, in whatever order and however far the
    units then get. *)
Theorem BindRemotes_one_unit_per_remote ctx gctx remotes proxies sched w
  (Hsome : remotes <> [])
  (Hin : Inbound (config (tun w)) = true)
  (Hbuilt : out (buildProxies NewProxy remotes w) = Returned (inl proxies)) :
  let r := BindRemotes NewProxy ctx gctx remotes sched w in
  List.length proxies = List.length remotes /\
  filter isGo (trace r) =
    map (fun k => Go (GoProxyRun k gctx)) (seq 0 (List.length remotes)) /\
  List.length (filter isInc (trace r)) = List.length remotes.
Proof.
  cbv zeta.
  rewrite (BindRemotes_accepted NewProxy ctx gctx remotes sched w Hsome Hin), Hbuilt.
  cbv zeta. cbn [trace].
  destruct (buildProxies_shape remotes w) as (Hgo & _ & Hout).
  rewrite Hbuilt in Hout. destruct Hout as [Hlen Hincs].
  pose proof (groupWait_no_go gctx sched
                (mkGroup None (seq 0 (List.length proxies)))
                (world (buildProxies NewProxy remotes w))) as Hwait.
  assert (Hnone : forall tr, Forall (fun a => isGo a = false) tr ->
                    filter isGo tr = []).
  { induction 1 as [|a tr Ha _ IH]; [reflexivity|]. cbn. rewrite Ha. exact IH. }
  assert (Hall : forall l, filter isGo (map (fun k => Go (GoProxyRun k gctx)) l)
                           = map (fun k => Go (GoProxyRun k gctx)) l).
  { induction l as [|k l IH]; [reflexivity|]. cbn. rewrite IH. reflexivity. }
  split; [exact Hlen|]. split.
  - rewrite filter_app. cbn [filter isGo]. rewrite filter_app.
    rewrite (Hnone _ Hgo), (Hnone _ Hwait), Hall, app_nil_r, Hlen. reflexivity.
  - rewrite filter_app, length_app, Hincs. cbn [filter isInc].
    rewrite filter_app, length_app.
    assert (H1 : forall l, filter isInc (map (fun k => Go (GoProxyRun k gctx)) l) = []).
    { induction l as [|k l IH]; [reflexivity|]. cbn. exact IH. }
    rewrite H1. cbn [List.length].
    assert (H2 : forall sched' g w',
              filter isInc (trace (groupWait gctx sched' g w')) = []).
    { induction sched' as [|[k r] rest IH]; intros g w'.
      - cbn. destruct (g_running g); reflexivity.
      - destruct (g_running g) as [|x l] eqn:E.
        + rewrite (groupWait_drained gctx _ g w' E). reflexivity.
        + assert (Hne : g_running g <> []) by (rewrite E; discriminate).
          rewrite (groupWait_next gctx k r rest g w' Hne).
          destruct (isRunning k g) eqn:Ek.
          * rewrite (bind_returned _ _ w' _ _ _ (unitReturns_running gctx k r g w' Ek)).
            cbn [trace]. rewrite filter_app, IH.
            destruct (cancels r g); reflexivity.
          * rewrite (bind_returned _ _ w' _ _ _ (unitReturns_stranger gctx k r g w' Ek)).
            cbn [trace app]. apply IH. }
    rewrite H2. cbn. lia.
Qed.

End FanOutEdges.

Lemma BindRemotes_construction_error_witness :
  let r := BindRemotes sampleNewProxy 1%nat 2%nat [8080; 80; 9000]
             [(0%nat, None)] (freshWorld sampleConfig) in
  out r = Returned (Some "listen: permission denied") /\
  proxyCount (tun (world r)) = 1 /\
  filter isGo (trace r) = [].
Proof.
  assert (Hsome : [8080; 80; 9000] <> []) by discriminate.
  destruct (BindRemotes_construction_error sampleNewProxy 1%nat 2%nat
              [8080; 80; 9000] [(0%nat, None)] (freshWorld sampleConfig)
              "listen: permission denied" Hsome eq_refl eq_refl)
    as (Hout & _).
  split; [exact Hout|]. split; reflexivity.
Defined.

Lemma BindRemotes_one_unit_per_remote_witness :
  filter isGo
    (trace (BindRemotes sampleNewProxy 1%nat 2%nat [8080; 8443] []
              (freshWorld sampleConfig))) =
  [Go (GoProxyRun 0 2%nat); Go (GoProxyRun 1 2%nat)].
Proof.
  assert (Hsome : [8080; 8443] <> []) by discriminate.
  exact (proj1 (proj2
    (BindRemotes_one_unit_per_remote sampleNewProxy 1%nat 2%nat [8080; 8443]
       [(0, 8080); (1, 8443)] [] (freshWorld sampleConfig)
       Hsome eq_refl eq_refl))).
Defined.

Lemma groupWait_frame gctx sched : forall g w,
  closed (world (groupWait gctx sched g w)) = closed w /\
  forall x, isDone x (world (groupWait gctx sched g w)) = true ->
            x = gctx \/ isDone x w = true.
Proof.
  assert (Hcancel : forall w,
            closed (step (Cancel gctx) w) = closed w /\
            forall x, isDone x (step (Cancel gctx) w) = true ->
                      x = gctx \/ isDone x w = true).
  { intros w. cbn. destruct (isDone gctx w) eqn:E; [split; auto|].
    split; [reflexivity|]. intros x. unfold isDone. cbn.
    destruct (Nat.eqb x gctx) eqn:Ex; [apply Nat.eqb_eq in Ex; auto|].
    cbn. auto. }
  induction sched as [|[k r] rest IH]; intros g w.
  - cbn. destruct (g_running g); cbn [world]; [apply Hcancel|auto].
  - destruct (g_running g) as [|x0 l] eqn:E.
    + rewrite (groupWait_drained gctx _ g w E). cbn [world]. apply Hcancel.
    + assert (Hne : g_running g <> []) by (rewrite E; discriminate).
      rewrite (groupWait_next gctx k r rest g w Hne).
      destruct (isRunning k g) eqn:Ek.
      * rewrite (bind_returned _ _ w _ _ _ (unitReturns_running gctx k r g w Ek)).
        cbn [world].
        destruct (IH (afterReturn k r g)
                    (if cancels r g then step (Cancel gctx) w else w)) as [H1 H2].
        destruct (cancels r g).
        -- destruct (Hcancel w) as [H3 H4]. split; [congruence|].
           intros x Hx. destruct (H2 x Hx) as [->|Hx']; auto.
        -- split; assumption.
      * rewrite (bind_returned _ _ w _ _ _ (unitReturns_stranger gctx k r g w Ek)).
        cbn [world]. apply IH.
Qed.

Lemma groupWait_quiet gctx sched : forall g w,
  Forall (fun a => touchesGate a = false) (trace (groupWait gctx sched g w)).
Proof.
  induction sched as [|[k r] rest IH]; intros g w.
  - cbn. destruct (g_running g); cbn; repeat constructor.
  - destruct (g_running g) as [|x l] eqn:E.
    + rewrite (groupWait_drained gctx _ g w E). repeat constructor.
    + assert (Hne : g_running g <> []) by (rewrite E; discriminate).
      rewrite (groupWait_next gctx k r rest g w Hne).
      destruct (isRunning k g) eqn:Ek.
      * rewrite (bind_returned _ _ w _ _ _ (unitReturns_running gctx k r g w Ek)).
        cbn [trace]. apply Forall_app. split; [|apply IH].
        destruct (cancels r g); repeat constructor.
      * rewrite (bind_returned _ _ w _ _ _ (unitReturns_stranger gctx k r g w Ek)).
        cbn [trace app]. apply IH.
Qed.

Lemma buildProxies_quiet {Remote Proxy : Type}
  (NewProxy : Z -> Remote -> Proxy + error) remotes : forall w,
  Forall (fun a => touchesGate a = false)
    (trace (buildProxies NewProxy remotes w)).
Proof.
  induction remotes as [|remote rest IH]; intros w; [constructor|].
  rewrite buildProxies_cons.
  destruct (NewProxy (proxyCount (tun w)) remote).
  - cbv zeta. cbn [trace]. repeat constructor. apply IH.
  - repeat constructor.
Qed.

(** X17: [BindRemotes] leaves the connection side of the tunnel alone:
    it never writes the gate or the slot, the configuration is as
    before, it closes no connection, and the only context it can cancel
    is the one of its own group. *)
Theorem BindRemotes_leaves_connection_alone
  {Remote Proxy : Type} (NewProxy : Z -> Remote -> Proxy + error)
  ctx gctx remotes sched w :
  let r := BindRemotes NewProxy ctx gctx remotes sched w in
  config (tun (world r)) = config (tun w) /\
  activatingConn (tun (world r)) = activatingConn (tun w) /\
  activeConn (tun (world r)) = activeConn (tun w) /\
  closed (world r) = closed w /\
  (forall x, isDone x (world r) = true -> x = gctx \/ isDone x w = true) /\
  Forall (fun a => touchesGate a = false) (trace r).
Proof.
  cbv zeta.
  split; [|split; [|split; [|split; [|split]]]].
  all: destruct remotes as [|remote rest]; [cbn; auto|].
  all: destruct (Inbound (config (tun w))) eqn:Hin;
    [|rewrite (BindRemotes_inbound_blocked NewProxy ctx gctx remote rest sched w Hin);
      cbn; auto].
  all: rewrite (BindRemotes_accepted NewProxy ctx gctx (remote :: rest) sched w
                  ltac:(discriminate) Hin).
  all: pose proof (buildProxies_quiet NewProxy (remote :: rest) w) as Hq.
  all: destruct (buildProxies_frame NewProxy (remote :: rest) w)
         as (H1 & H2 & H3 & H4 & H5 & res & H6).
  all: rewrite H6; destruct res as [proxies|err]; cbv zeta; cbn [world trace];
    rewrite ?groupWait_tun; try assumption.
  - destruct (groupWait_frame gctx sched
                (mkGroup None (seq 0 (List.length proxies)))
                (world (buildProxies NewProxy (remote :: rest) w))) as [Hc _].
    congruence.
  - intros x Hx.
    destruct (groupWait_frame gctx sched
                (mkGroup None (seq 0 (List.length proxies)))
                (world (buildProxies NewProxy (remote :: rest) w))) as [_ Hd].
    destruct (Hd x Hx) as [->|Hx']; [auto|].
    right. unfold isDone in *. rewrite <- H5. exact Hx'.
  - intros x Hx. right. unfold isDone in *. rewrite <- H5. exact Hx.
  - apply Forall_app. split; [exact Hq|].
    constructor; [reflexivity|]. apply Forall_app. split; [|apply groupWait_quiet].
    apply Forall_forall. intros a Ha. apply in_map_iff in Ha as (k & <- & _).
    reflexivity.
Qed.

(** ** The configuration *)

Lemma step_config a w : config (tun (step a w)) = config (tun w).
Proof.
  destruct a; cbn [step setTun setGate tun config];
    rewrite ?markClosed_tun; try reflexivity.
  destruct (isDone ctx w); reflexivity.
Qed.

Lemma replay_config tr : forall w, config (tun (replay tr w)) = config (tun w).
Proof.
  induction tr as [|a tr IH]; intros w; [reflexivity|].
  change (replay (a :: tr) w) with (replay tr (step a w)).
  rewrite IH. apply step_config.
Qed.

Lemma BindSSH_config ctx c shutdown w :
  config (tun (world (BindSSH ctx c shutdown w))) = config (tun w).
Proof.
  destruct (activeConn (tun w)) as [c0|] eqn:E.
  - rewrite (BindSSH_bound ctx c shutdown w c0 E). reflexivity.
  - destruct shutdown as [e|].
    + rewrite (BindSSH_unbound ctx c e w E). cbv zeta. cbn [world].
      apply replay_config.
    + rewrite (BindSSH_ongoing ctx c w E). cbn [world]. apply replay_config.
Qed.

Lemma keepAliveLoop_tun c env w : tun (world (keepAliveLoop c env w)) = tun w.
Proof.
  destruct (first_failure_split (KeepAlive (config (tun w))) env)
    as [Hall|(ps & p & rest & -> & Hps & Hp)].
  - rewrite (keepAliveLoop_alive c env w Hall). reflexivity.
  - rewrite (keepAliveLoop_first_failure c ps p rest w Hps Hp).
    apply markClosed_tun.
Qed.

Lemma BindRemotes_config {Remote Proxy : Type}
  (NewProxy : Z -> Remote -> Proxy + error) ctx gctx remotes sched w :
  config (tun (world (BindRemotes NewProxy ctx gctx remotes sched w))) =
  config (tun w).
Proof.
  destruct remotes as [|remote rest]; [reflexivity|].
  destruct (Inbound (config (tun w))) eqn:Hin.
  - rewrite (BindRemotes_accepted NewProxy ctx gctx (remote :: rest) sched w
               ltac:(discriminate) Hin).
    destruct (buildProxies_frame NewProxy (remote :: rest) w)
      as (H1 & _ & _ & _ & _ & res & H6).
    rewrite H6. destruct res; cbv zeta; cbn [world];
      rewrite ?groupWait_tun; exact H1.
  - rewrite (BindRemotes_inbound_blocked NewProxy ctx gctx remote rest sched w Hin).
    reflexivity.
Qed.

(** X18: the configuration given to [New] is never written again: after
    any sequence of calls on the tunnel, whatever the goroutines did in
    between, [Inbound], [Outbound], [Socks] and [KeepAlive] are those the
    tunnel was made with. *)
Theorem config_is_immutable
  {Remote Proxy : Type} (NewProxy : Z -> Remote -> Proxy + error)
  (calls : list (call Remote)) cfg :
  config (tun (lifetime NewProxy calls (freshWorld cfg))) = cfg.
Proof.
  change cfg with (config (tun (freshWorld cfg))) at 2.
  generalize (freshWorld cfg) as w.
  induction calls as [|k calls IH]; intros w; [reflexivity|].
  change (lifetime NewProxy (k :: calls) w)
    with (lifetime NewProxy calls (perform NewProxy k w)).
  rewrite IH. destruct k; cbn [perform].
  - apply BindSSH_config.
  - unfold ctxWatch, connClose, bind, get, act, ret. cbn [world].
    rewrite !step_config. reflexivity.
  - destruct (getSSH_world env timerFirst lag ctx w future) as (pre & post & _ & ->).
    apply replay_config.
  - rewrite Close_eq.
    destruct (getSSH_world env timerFirst lag ctx w future) as (pre & post & _ & Hw).
    destruct (got_conn (getSSH env timerFirst lag ctx w future)) as [c|].
    + unfold connClose, bind, get, act, ret. cbn [world].
      rewrite step_config, Hw. apply replay_config.
    + cbn [world]. rewrite Hw. apply replay_config.
  - rewrite keepAliveLoop_tun. reflexivity.
  - apply BindRemotes_config.
Qed.

(** ** Instances *)

Lemma BindSSH_keepalive_iff_witness :
  In (Go (GoKeepAlive 7%nat))
     (trace (BindSSH 1%nat 7%nat None (freshWorld sampleConfig))).
Proof.
  apply (proj2 (BindSSH_keepalive_iff 1%nat 7%nat None
                  (freshWorld sampleConfig) 7%nat)).
  split; [reflexivity|]. split; reflexivity.
Defined.

Lemma keepAliveLoop_alive_iff_witness :
  out (keepAliveLoop 7%nat [samplePong 1; sampleEmpty 2]
         (freshWorld sampleConfig)) = Blocked.
Proof.
  apply (proj2 (proj1 (keepAliveLoop_alive_iff 7%nat
                         [samplePong 1; sampleEmpty 2]
                         (freshWorld sampleConfig)))).
  constructor; [|constructor; [|constructor]].
  - split; [exists 1; split; [reflexivity|left; reflexivity]|].
    split; [reflexivity|right; reflexivity].
  - split; [exists 2; split; [reflexivity|left; reflexivity]|].
    split; [reflexivity|left; reflexivity].
Defined.

Lemma keepAliveLoop_touches_only_its_connection_witness :
  isClosed 8%nat
    (world (keepAliveLoop 7%nat [sampleSilent]
              (world (BindSSH 1%nat 8%nat None (freshWorld sampleConfig))))) =
  false.
Proof.
  destruct (keepAliveLoop_touches_only_its_connection 7%nat [sampleSilent]
              (world (BindSSH 1%nat 8%nat None (freshWorld sampleConfig))))
    as (_ & _ & H & _).
  rewrite (H 8%nat); [reflexivity|discriminate].
Defined.

Lemma BindRemotes_leaves_connection_alone_witness :
  let r := BindRemotes sampleNewProxy 1%nat 2%nat [8080]
             [(0%nat, Some "boom")]
             (world (BindSSH 3%nat 7%nat None (freshWorld sampleConfig))) in
  activeConn (tun (world r)) = Some 7%nat /\ closed (world r) = [].
Proof.
  destruct (BindRemotes_leaves_connection_alone sampleNewProxy 1%nat 2%nat
              [8080] [(0%nat, Some "boom")]
              (world (BindSSH 3%nat 7%nat None (freshWorld sampleConfig))))
    as (_ & _ & Ha & Hc & _).
  split; [rewrite Ha; reflexivity | rewrite Hc; reflexivity].
Defined.
